(** * SSH client scaffold: credential vault, profile store and connect helper

    A shallow embedding of the TypeScript sources

    - the crypto utility ([generateKeyFromPassword], [encrypt], [decrypt]),
    - the profile service ([generateId], [getProfiles], [saveProfiles],
      [addProfile], [updateProfile], [deleteProfile]),
    - the SSH service ([connect]),

    followed by the properties stated for them.  The platform the code runs
    on is not part of the sources.  [Buffer]'s ['hex'] and ['utf8'] codecs,
    [localStorage] and [crypto.randomUUID] are written out; Node's key
    derivation and cipher, [JSON] and the [ssh2] client are interfaces with
    the laws their documentation gives. *)

From Stdlib Require Import NArith List Lia Ascii String Bool DecimalString.
From Stdlib.Strings Require Import Byte.
From stdpp Require Import gmap list.
Import ListNotations.

Local Open Scope N_scope.

(** ** JavaScript values *)

Module Js.

(** A JavaScript string is a sequence of UTF-16 code units. *)
Definition jsstring : Type := list N.

(** A string literal of the source. *)
Definition lit (s : string) : jsstring :=
  map N_of_ascii (list_ascii_of_string s).

(** The empty string is the only falsy string. *)
Definition falsy (s : jsstring) : bool :=
  match s with [] => true | _ => false end.

(** An [Error] object, as far as the sources look at it: its message. *)
Record Error : Type := mkError { message : string }.

(** The outcome of a call: a value, or a thrown [Error]. *)
Inductive Result (A : Type) : Type :=
| Ok (a : A)
| Throw (e : Error).
Arguments Ok {A} a.
Arguments Throw {A} e.

(** [hay.includes(needle)] on messages. *)
Fixpoint includes (hay needle : string) : bool :=
  String.prefix needle hay
  || match hay with
     | EmptyString => false
     | String _ rest => includes rest needle
     end.

(** [s.split(sep)] for a one-unit separator: the segments between the
    occurrences of [sep], one more than there are occurrences. *)
Fixpoint split_acc (sep : N) (cur : jsstring) (s : jsstring)
  : list jsstring :=
  match s with
  | [] => [rev cur]
  | u :: rest =>
      if u =? sep then rev cur :: split_acc sep [] rest
      else split_acc sep (u :: cur) rest
  end.
Definition split (s : jsstring) (sep : N) : list jsstring :=
  split_acc sep [] s.

(** The code unit of [':']. *)
Definition colon : N := 58.

(** A number in a template literal. *)
Definition show (n : nat) : string := NilZero.string_of_uint (Nat.to_uint n).

(** The double quote, for messages that quote. *)
Definition dquote : string := String (ascii_of_nat 34) EmptyString.

(** [n.toString(36)] of a non-negative integer. *)
Definition digit36 (d : N) : N := if d <? 10 then 48 + d else 87 + d.
Fixpoint to_radix36 (fuel : nat) (n : N) (acc : jsstring) : jsstring :=
  match fuel with
  | O => acc
  | S fuel' =>
      let acc' := digit36 (n mod 36) :: acc in
      if n / 36 =? 0 then acc' else to_radix36 fuel' (n / 36) acc'
  end.
Definition toString36 (n : N) : jsstring :=
  to_radix36 (S (N.to_nat (N.log2 n))) n [].

End Js.
Export Js.

(** ** Node's [Buffer]: bytes, and the ['hex'] codec *)

Module Buffer.

Definition Buffer : Type := list byte.

Definition byte_of_N (n : N) : byte :=
  match Byte.of_N n with
  | Some b => b
  | None => x00
  end.

(** The lower-case digit of a nibble. *)
Definition hex_digit (n : N) : N :=
  if n <? 10 then 48 + n else 87 + n.

(** The nibble of a digit of either case, if it is one. *)
Definition unhex (u : N) : option N :=
  if (48 <=? u) && (u <=? 57) then Some (u - 48)
  else if (97 <=? u) && (u <=? 102) then Some (u - 87)
  else if (65 <=? u) && (u <=? 70) then Some (u - 55)
  else None.

(** [buf.toString('hex')] *)
Definition to_hex (buf : Buffer) : jsstring :=
  flat_map (fun b => [hex_digit (Byte.to_N b / 16);
                      hex_digit (Byte.to_N b mod 16)]) buf.

(** [Buffer.from(s, 'hex')]: pairs of digits are read up to the first
    pair that is not two digits; an odd last unit is dropped. *)
Fixpoint from_hex (s : jsstring) : Buffer :=
  match s with
  | hi :: lo :: rest =>
      match unhex hi, unhex lo with
      | Some h, Some l => byte_of_N (16 * h + l) :: from_hex rest
      | _, _ => []
      end
  | _ => []
  end.

End Buffer.
Export Buffer.

(** ** Node's ['utf8'] codec

    [Buffer.from(s)], [cipher.update(s, 'utf8', _)] and
    [buf.toString('utf8')].  Encoding reads the string as UTF-16: a
    surrogate pair is one code point, a surrogate without its partner is
    encoded as U+FFFD.  Decoding follows the WHATWG decoder, which Node
    applies without stripping a byte order mark: an ill-formed sequence
    decodes to U+FFFD and the byte that broke it is read again.  Masks and
    shifts are written as remainders and products. *)

Module Utf8.

Definition is_high (u : N) : bool := (0xD800 <=? u) && (u <=? 0xDBFF).
Definition is_low (u : N) : bool := (0xDC00 <=? u) && (u <=? 0xDFFF).

Definition REPLACEMENT : N := 0xFFFD.

(** The code point of a surrogate pair. *)
Definition pair_cp (h l : N) : N :=
  0x10000 + (h - 0xD800) * 0x400 + (l - 0xDC00).

(** The UTF-16 form of a code point. *)
Definition units_of_cp (c : N) : jsstring :=
  if c <? 0x10000 then [c]
  else [0xD800 + (c - 0x10000) / 0x400; 0xDC00 + (c - 0x10000) mod 0x400].

(** The UTF-8 form of a code point. *)
Definition encode_cp (c : N) : Buffer :=
  if c <? 0x80 then [byte_of_N c]
  else if c <? 0x800 then
    [byte_of_N (0xC0 + c / 64); byte_of_N (0x80 + c mod 64)]
  else if c <? 0x10000 then
    [byte_of_N (0xE0 + c / 4096); byte_of_N (0x80 + (c / 64) mod 64);
     byte_of_N (0x80 + c mod 64)]
  else
    [byte_of_N (0xF0 + c / 262144); byte_of_N (0x80 + (c / 4096) mod 64);
     byte_of_N (0x80 + (c / 64) mod 64); byte_of_N (0x80 + c mod 64)].

Fixpoint encode (s : jsstring) : Buffer :=
  match s with
  | [] => []
  | u :: rest =>
      if is_high u then
        match rest with
        | l :: rest' =>
            if is_low l then encode_cp (pair_cp u l) ++ encode rest'
            else encode_cp REPLACEMENT ++ encode rest
        | [] => encode_cp REPLACEMENT
        end
      else if is_low u then encode_cp REPLACEMENT ++ encode rest
      else encode_cp u ++ encode rest
  end.

(** The decoder between two bytes: at a boundary, or inside a sequence
    with [remaining] continuation bytes to come, the bits read so far and
    the range the next byte has to fall in. *)
Inductive dstate : Type :=
| Boundary
| Inside (remaining : nat) (cp lower upper : N).

(** A byte at a boundary. *)
Definition lead (b : N) : dstate * jsstring :=
  if b <=? 0x7F then (Boundary, [b])
  else if (0xC2 <=? b) && (b <=? 0xDF) then
    (Inside 1 (b mod 32) 0x80 0xBF, [])
  else if (0xE0 <=? b) && (b <=? 0xEF) then
    (Inside 2 (b mod 16)
       (if b =? 0xE0 then 0xA0 else 0x80)
       (if b =? 0xED then 0x9F else 0xBF), [])
  else if (0xF0 <=? b) && (b <=? 0xF4) then
    (Inside 3 (b mod 8)
       (if b =? 0xF0 then 0x90 else 0x80)
       (if b =? 0xF4 then 0x8F else 0xBF), [])
  else (Boundary, [REPLACEMENT]).

Definition step (st : dstate) (b : N) : dstate * jsstring :=
  match st with
  | Boundary => lead b
  | Inside remaining cp lower upper =>
      if (lower <=? b) && (b <=? upper) then
        let cp' := cp * 64 + b mod 64 in
        match remaining with
        | S (S n) => (Inside (S n) cp' 0x80 0xBF, [])
        | _ => (Boundary, units_of_cp cp')
        end
      else
        let (st', out) := lead b in (st', REPLACEMENT :: out)
  end.

Fixpoint decode_from (st : dstate) (buf : Buffer) : jsstring :=
  match buf with
  | [] => match st with Boundary => [] | Inside _ _ _ _ => [REPLACEMENT] end
  | b :: rest =>
      let (st', out) := step st (Byte.to_N b) in
      out ++ decode_from st' rest
  end.

Definition decode (buf : Buffer) : jsstring := decode_from Boundary buf.

(** Well-formed UTF-16: every unit fits 16 bits and every surrogate is
    half of a pair. *)
Fixpoint well_formed (s : jsstring) : bool :=
  match s with
  | [] => true
  | u :: rest =>
      if is_high u then
        match rest with
        | l :: rest' => is_low l && well_formed rest'
        | [] => false
        end
      else negb (is_low u) && (u <? 0x10000) && well_formed rest
  end.

End Utf8.

(** ** The world the code runs in *)

Module Platform.

(** What the platform holds between calls: the bytes the secure random
    source will deliver, whether [crypto.randomUUID] exists, the clock
    [Date.now()] reads, the texts [Math.random().toString(36)] will return
    (floating point itself is not modelled), what was written with
    [console.error], and [localStorage] with the room it has, counted in
    code units of keys and values. *)
Record World : Type := mkWorld {
  entropy : nat -> byte;
  has_randomUUID : bool;
  clock : N;
  math_random : nat -> jsstring;
  console : list (string * Error);
  localStorage : gmap jsstring jsstring;
  quota : N
}.

Definition with_entropy (e : nat -> byte) (w : World) : World :=
  mkWorld e (has_randomUUID w) (clock w) (math_random w) (console w)
    (localStorage w) (quota w).
Definition with_math_random (r : nat -> jsstring) (w : World) : World :=
  mkWorld (entropy w) (has_randomUUID w) (clock w) r (console w)
    (localStorage w) (quota w).
Definition with_console (c : list (string * Error)) (w : World) : World :=
  mkWorld (entropy w) (has_randomUUID w) (clock w) (math_random w) c
    (localStorage w) (quota w).
Definition with_localStorage (s : gmap jsstring jsstring) (w : World)
  : World :=
  mkWorld (entropy w) (has_randomUUID w) (clock w) (math_random w)
    (console w) s (quota w).

(** A computation: it reads and changes the world, and returns or throws.
    What it did before throwing stays done. *)
Definition M (A : Type) : Type := World -> Result A * World.

Definition ret {A} (a : A) : M A := fun w => (Ok a, w).
Definition throw {A} (e : Error) : M A := fun w => (Throw e, w).
Definition bind {A B} (m : M A) (k : A -> M B) : M B :=
  fun w =>
    match m w with
    | (Ok a, w') => k a w'
    | (Throw e, w') => (Throw e, w')
    end.
Definition lift {A} (r : Result A) : M A := fun w => (r, w).

(** [try { body } catch (error) { handler error }] *)
Definition try_catch {A} (body : M A) (handler : Error -> M A) : M A :=
  fun w =>
    match body w with
    | (Ok a, w') => (Ok a, w')
    | (Throw e, w') => handler e w'
    end.

(** How a computation ends in a world. *)
Definition returns {A} (m : M A) (w : World) : Prop :=
  exists a w', m w = (Ok a, w').
Definition throws {A} (m : M A) (w : World) (e : Error) : Prop :=
  exists w', m w = (Throw e, w').

#[global] Instance M_ret : MRet M := @ret.
#[global] Instance M_bind : MBind M := fun A B k m => bind m k.

(** [console.error(label, error)] *)
Definition console_error (label : string) (error : Error) : M unit :=
  fun w => (Ok tt, with_console (console w ++ [(label, error)]) w).

(** [crypto.randomBytes(n)]: the next [n] bytes of the random source. *)
Definition randomBytes (n : nat) : M Buffer :=
  fun w => (Ok (map (entropy w) (seq 0 n)),
            with_entropy (fun i => entropy w (n + i)%nat) w).

(** [crypto.randomUUID()]: a version 4 UUID from 16 random bytes, the
    version in the high nibble of the seventh byte, the variant in the two
    high bits of the ninth, printed in hex in groups of 4, 2, 2, 2 and 6
    bytes. *)
Definition uuid_v4 (bytes : Buffer) : jsstring :=
  let stamped :=
    imap (fun i b =>
            if Nat.eqb i 6 then byte_of_N (0x40 + Byte.to_N b mod 16)
            else if Nat.eqb i 8 then byte_of_N (0x80 + Byte.to_N b mod 64)
            else b) bytes in
  to_hex (firstn 4 stamped) ++ lit "-"
  ++ to_hex (firstn 2 (skipn 4 stamped)) ++ lit "-"
  ++ to_hex (firstn 2 (skipn 6 stamped)) ++ lit "-"
  ++ to_hex (firstn 2 (skipn 8 stamped)) ++ lit "-"
  ++ to_hex (firstn 6 (skipn 10 stamped)).
Definition randomUUID : M jsstring :=
  bytes ← randomBytes 16; mret (uuid_v4 bytes).

(** [Date.now()] *)
Definition Date_now : M N := fun w => (Ok (clock w), w).

(** [Math.random().toString(36)] *)
Definition Math_random_toString36 : M jsstring :=
  fun w => (Ok (math_random w 0%nat),
            with_math_random (fun i => math_random w (S i)) w).

(** [localStorage.getItem(key)]: the value, or [null]. *)
Definition getItem (key : jsstring) : M (option jsstring) :=
  fun w => (Ok (localStorage w !! key), w).

(** The room a store takes. *)
Definition usage (s : gmap jsstring jsstring) : N :=
  map_fold (fun k v acc => N.of_nat (length k) + N.of_nat (length v) + acc)
    0 s.

Definition QuotaExceededError : Error :=
  mkError "The quota has been exceeded.".

(** [localStorage.setItem(key, value)]: throws, and stores nothing, when
    the store would outgrow its quota. *)
Definition setItem (key value : jsstring) : M unit :=
  fun w =>
    let s := <[key := value]> (localStorage w) in
    if usage s <=? quota w then (Ok tt, with_localStorage s w)
    else (Throw QuotaExceededError, w).

(** Node's [crypto] module, as far as the vault calls it: PBKDF2, and a
    cipher run from [createCipheriv] over [update] to [final] (its whole
    output, or the error one of the three threw), likewise a decipher run. *)
Class NodeCrypto : Type := {
  pbkdf2Sync : jsstring -> jsstring -> N -> nat -> string -> Buffer;
  cipher_run : string -> Buffer -> Buffer -> Buffer -> Result Buffer;
  decipher_run : string -> Buffer -> Buffer -> Buffer -> Result Buffer
}.

(** What Node documents: [pbkdf2Sync] returns [keylen] bytes, and under
    AES-256-CBC with a 32-byte key and a 16-byte IV every input is
    encrypted, to a ciphertext that the same key and IV decrypt to it. *)
Class NodeCryptoLaws (C : NodeCrypto) : Prop := {
  pbkdf2Sync_length :
    forall password salt iterations keylen digest,
      length (pbkdf2Sync password salt iterations keylen digest) = keylen;
  decipher_cipher :
    forall key iv data,
      length key = 32%nat -> length iv = 16%nat ->
      exists ct,
        cipher_run "aes-256-cbc" key iv data = Ok ct
        /\ decipher_run "aes-256-cbc" key iv ct = Ok data
}.

End Platform.
Export Platform.

(** ** The crypto utility *)

Module Vault.
Section Vault.
Context {crypto : NodeCrypto}.

Definition ALGORITHM : string := "aes-256-cbc".
Definition KEY_LENGTH : nat := 32.
Definition IV_LENGTH : nat := 16.

Definition key_length_error : Error :=
  mkError ("Secret key must be " ++ show KEY_LENGTH ++ " bytes long.").
Definition format_error : Error :=
  mkError ("Invalid encrypted data format. Expected "
           ++ dquote ++ "iv:encrypted_data" ++ dquote ++ ".").
Definition iv_length_error : Error :=
  mkError ("Invalid IV length. Expected " ++ show IV_LENGTH ++ " bytes.").

Definition generateKeyFromPassword (password salt : jsstring) : M Buffer :=
  if falsy password || falsy salt then
    throw (mkError "Password and salt are required to generate a key.")
  else
    mret (pbkdf2Sync password salt 100000 KEY_LENGTH "sha512").

(** [update(text, 'utf8', 'hex') + final('hex')] is the hex of the whole
    ciphertext, hex being written byte by byte. *)
Definition encrypt (text : jsstring) (secretKey : Buffer) : M jsstring :=
  if negb (length secretKey =? KEY_LENGTH)%nat then throw key_length_error
  else
    try_catch
      (iv ← randomBytes IV_LENGTH;
       encrypted ← lift (cipher_run ALGORITHM secretKey iv (Utf8.encode text));
       mret (to_hex iv ++ lit ":" ++ to_hex encrypted))
      (fun error =>
         console_error "Encryption failed:" error;;
         throw (mkError "Encryption process failed.")).

(** The errors [decrypt]'s handler passes on as they are. *)
Definition passed_on (error : Error) : bool :=
  includes (message error) "Invalid IV length"
  || includes (message error) "Invalid encrypted data format".

Definition decrypt (encryptedDataWithIv : jsstring) (secretKey : Buffer)
  : M jsstring :=
  if negb (length secretKey =? KEY_LENGTH)%nat then throw key_length_error
  else
    try_catch
      (let parts := split encryptedDataWithIv colon in
       match parts with
       | [part0; part1] =>
           let iv := from_hex part0 in
           let encryptedText := from_hex part1 in
           if negb (length iv =? IV_LENGTH)%nat then throw iv_length_error
           else
             decrypted ← lift (decipher_run ALGORITHM secretKey iv
                                 encryptedText);
             mret (Utf8.decode decrypted)
       | _ => throw format_error
       end)
      (fun error =>
         console_error "Decryption failed:" error;;
         if passed_on error then throw error
         else throw (mkError
                "Decryption process failed. Check key or data integrity.")).

End Vault.
End Vault.

(** ** The types of the SSH client *)

Module Types.

(** [port] is a port number: the fractions and non-finite values of a
    JavaScript number are not modelled.  An optional field is [None] when
    it is left out. *)
Record SSHConnectionParams : Type := mkParams {
  host : jsstring;
  port : N;
  username : jsstring;
  password : option jsstring;
  privateKey : option jsstring;
  passphrase : option jsstring
}.

(** [Omit<ConnectionProfile, 'id'>] *)
Record ProfileData : Type := mkData {
  name : jsstring;
  params : SSHConnectionParams
}.

(** [ConnectionProfile extends SSHConnectionParams], with [id] and [name] *)
Record ConnectionProfile : Type := mkProfile {
  id : jsstring;
  data : ProfileData
}.

End Types.
Export Types.

(** ** The profile service *)

Module ProfileService.

(** What [JSON.parse] makes of a text: an array, read as the profiles the
    service takes its elements to be, or some other value. *)
Inductive JsonValue : Type :=
| ProfileArray (profiles : list ConnectionProfile)
| NotArray.

(** [JSON.stringify] of a profile array, and [JSON.parse], which throws on
    a text that is not JSON. *)
Class Json : Type := {
  JSON_stringify : list ConnectionProfile -> jsstring;
  JSON_parse : jsstring -> Result JsonValue
}.

(** A profile array is printed as a text that is not empty and that parses
    back to it. *)
Class JsonLaws (J : Json) : Prop := {
  parse_stringify :
    forall profiles,
      JSON_parse (JSON_stringify profiles) = Ok (ProfileArray profiles);
  stringify_truthy :
    forall profiles, falsy (JSON_stringify profiles) = false
}.

Section ProfileService.
Context {json : Json}.

Definition PROFILES_STORAGE_KEY : jsstring := lit "sshClientProfiles".

Definition generateId : M jsstring :=
  fun w =>
    if has_randomUUID w then randomUUID w
    else (now ← Date_now;
          random ← Math_random_toString36;
          mret (toString36 now ++ skipn 2 random)) w.

Definition getProfiles : M (list ConnectionProfile) :=
  try_catch
    (profilesJson ← getItem PROFILES_STORAGE_KEY;
     match profilesJson with
     | Some text =>
         if falsy text then mret []
         else
           profiles ← lift (JSON_parse text);
           mret (match profiles with
                 | ProfileArray profiles => profiles
                 | NotArray => []
                 end)
     | None => mret []
     end)
    (fun error =>
       console_error "Error retrieving profiles from localStorage:" error;;
       mret []).

Definition saveProfiles (profiles : list ConnectionProfile) : M unit :=
  try_catch
    (setItem PROFILES_STORAGE_KEY (JSON_stringify profiles))
    (fun error =>
       console_error "Error saving profiles to localStorage:" error).

Definition addProfile (profileData : ProfileData) : M ConnectionProfile :=
  profiles ← getProfiles;
  newId ← generateId;
  let newProfile := mkProfile newId profileData in
  saveProfiles (profiles ++ [newProfile]);;
  mret newProfile.

(** [profiles.findIndex(p => p.id === id)], [None] for [-1]. *)
Definition findIndex (profileId : jsstring)
    (profiles : list ConnectionProfile) : option nat :=
  fst <$> list_find (fun p => id p = profileId) profiles.

Definition updateProfile (updatedProfile : ConnectionProfile) : M bool :=
  profiles ← getProfiles;
  match findIndex (id updatedProfile) profiles with
  | Some profileIndex =>
      saveProfiles (<[profileIndex := updatedProfile]> profiles);;
      mret true
  | None => mret false
  end.

Definition deleteProfile (profileId : jsstring) : M bool :=
  profiles ← getProfiles;
  let initialLength := length profiles in
  let updatedProfiles := filter (fun p => id p <> profileId) profiles in
  if (length updatedProfiles <? initialLength)%nat then
    saveProfiles updatedProfiles;;
    mret true
  else mret false.

End ProfileService.
End ProfileService.

(** ** The SSH service *)

Module SshService.

(** The events an [ssh2] client emits. *)
Inductive ClientEvent : Type :=
| ready
| error (err : Error)
| close.

(** The configuration [connect] hands to the client. *)
Record Config : Type := mkConfig {
  cfg_host : jsstring;
  cfg_port : N;
  cfg_username : jsstring;
  cfg_password : option jsstring;
  cfg_privateKey : option Buffer;
  cfg_passphrase : option jsstring
}.

(** A call of [conn.connect(config)]: it throws before any I/O, or it
    returns, and the connection attempt then emits its events in order. *)
Inductive ConnectCall : Type :=
| Throws (err : Error)
| Emits (events : list ClientEvent).

(** The [ssh2] client. *)
Class Ssh2 : Type := { Client_connect : Config -> ConnectCall }.

Inductive PromiseState : Type :=
| Pending
| Resolved
| Rejected (reason : Error).

(** One call of [connect]: the promise it returned, the configurations it
    passed to [conn.connect], how often it called [conn.end()], and what
    it printed. *)
Record Run : Type := mkRun {
  promise : PromiseState;
  connect_calls : list Config;
  end_calls : nat;
  printed : list jsstring
}.

(** A promise settles once: later calls of [resolve] and [reject] do
    nothing. *)
Definition settle (s : PromiseState) (r : Run) : Run :=
  mkRun (match promise r with Pending => s | settled => settled end)
    (connect_calls r) (end_calls r) (printed r).
Definition print (line : jsstring) (r : Run) : Run :=
  mkRun (promise r) (connect_calls r) (end_calls r) (printed r ++ [line]).
Definition call_end (r : Run) : Run :=
  mkRun (promise r) (connect_calls r) (S (end_calls r)) (printed r).
Definition call_connect (config : Config) (r : Run) : Run :=
  mkRun (promise r) (connect_calls r ++ [config]) (end_calls r) (printed r).

Section SshService.
Context {ssh2 : Ssh2}.

(** The handlers [connect] registers. *)
Definition handle (params : SSHConnectionParams) (r : Run)
    (event : ClientEvent) : Run :=
  match event with
  | ready =>
      call_end
        (print (lit "SSH connection established to " ++ host params) r)
  | error err =>
      settle (Rejected err)
        (print (lit ("SSH connection error: " ++ message err)) r)
  | close =>
      settle Resolved (print (lit "SSH connection closed") r)
  end.

Definition config_of (params : SSHConnectionParams) : Config :=
  mkConfig (host params) (port params) (username params) (password params)
    (match privateKey params with
     | Some key => if falsy key then None else Some (Utf8.encode key)
     | None => None
     end)
    (passphrase params).

(** The promise's executor: the run when [connect] returns the promise,
    and the events the client has yet to emit. *)
Definition executor (params : SSHConnectionParams)
  : Run * list ClientEvent :=
  let config := config_of params in
  let r := call_connect config (mkRun Pending [] 0 []) in
  match Client_connect config with
  | Throws err =>
      (settle (Rejected err)
         (print (lit ("SSH connection failed synchronously: Error: "
                      ++ message err)) r),
       [])
  | Emits events => (r, events)
  end.

(** [connect], run until the client has emitted its events. *)
Definition connect (params : SSHConnectionParams) : Run :=
  let (r, events) := executor params in
  fold_left (handle params) events r.

End SshService.
End SshService.

(** ** Stand-ins for the platform

    Small executable platforms that keep the laws above; the examples below
    run on them. *)

Module StandIn.
Import ProfileService SshService.

(** A key derivation that spreads the bytes of password and salt over the
    length asked for. *)
Definition spread (password salt : jsstring) (keylen : nat) : Buffer :=
  let material := Utf8.encode password ++ Utf8.encode salt in
  map (fun i => nth (i mod length material) material x00) (seq 0 keylen).

(** [strip prefix buf]: what follows [prefix] in [buf]. *)
Fixpoint strip (prefix buf : Buffer) : option Buffer :=
  match prefix, buf with
  | [], _ => Some buf
  | p :: prefix', b :: buf' =>
      if Byte.eqb p b then strip prefix' buf' else None
  | _ :: _, [] => None
  end.

(** A cipher that seals the data behind key and IV, and opens only what
    was sealed with the same two.  It keeps the law of decryption and
    nothing secret. *)
Definition seal (key iv data : Buffer) : Result Buffer :=
  if negb (length key =? 32)%nat then Throw (mkError "Invalid key length")
  else if negb (length iv =? 16)%nat then
    Throw (mkError "Invalid initialization vector")
  else Ok (key ++ iv ++ data).
Definition unseal (key iv ct : Buffer) : Result Buffer :=
  if negb (length key =? 32)%nat then Throw (mkError "Invalid key length")
  else if negb (length iv =? 16)%nat then
    Throw (mkError "Invalid initialization vector")
  else
    match strip (key ++ iv) ct with
    | Some data => Ok data
    | None => Throw (mkError "bad decrypt")
    end.

#[local] Instance crypto : NodeCrypto := {|
  pbkdf2Sync password salt _ keylen _ := spread password salt keylen;
  cipher_run _ := seal;
  decipher_run _ := unseal
|}.

(** A serialisation that writes a text behind its length, an optional
    text behind a mark, and a record behind a mark, between brackets. *)
Definition put_text (s : jsstring) : jsstring := N.of_nat (length s) :: s.
Definition put_optional (o : option jsstring) : jsstring :=
  match o with
  | Some s => 1 :: put_text s
  | None => [0]
  end.
Definition put_profile (p : ConnectionProfile) : jsstring :=
  put_text (id p) ++ put_text (name (data p))
  ++ put_text (host (params (data p))) ++ [port (params (data p))]
  ++ put_text (username (params (data p)))
  ++ put_optional (password (params (data p)))
  ++ put_optional (privateKey (params (data p)))
  ++ put_optional (passphrase (params (data p))).
Definition put_profiles (profiles : list ConnectionProfile) : jsstring :=
  91 :: flat_map (fun p => 1 :: put_profile p) profiles ++ [93].

Definition get_text (s : jsstring) : option (jsstring * jsstring) :=
  match s with
  | n :: rest =>
      if (N.to_nat n <=? length rest)%nat then
        Some (firstn (N.to_nat n) rest, skipn (N.to_nat n) rest)
      else None
  | [] => None
  end.
Definition get_optional (s : jsstring)
  : option (option jsstring * jsstring) :=
  match s with
  | 0 :: rest => Some (None, rest)
  | 1 :: rest => '(text, rest') ← get_text rest; Some (Some text, rest')
  | _ => None
  end.
Definition get_profile (s : jsstring)
  : option (ConnectionProfile * jsstring) :=
  '(i, s) ← get_text s;
  '(n, s) ← get_text s;
  '(h, s) ← get_text s;
  match s with
  | p :: s =>
      '(u, s) ← get_text s;
      '(pw, s) ← get_optional s;
      '(key, s) ← get_optional s;
      '(phrase, s) ← get_optional s;
      Some (mkProfile i (mkData n (mkParams h p u pw key phrase)), s)
  | [] => None
  end.
Fixpoint get_profiles (fuel : nat) (s : jsstring)
  : option (list ConnectionProfile) :=
  match fuel with
  | O => None
  | S fuel' =>
      match s with
      | [93] => Some []
      | 1 :: rest =>
          '(p, rest') ← get_profile rest;
          profiles ← get_profiles fuel' rest';
          Some (p :: profiles)
      | _ => None
      end
  end.

#[local] Instance json : Json := {|
  JSON_stringify := put_profiles;
  JSON_parse text :=
    match text with
    | 91 :: rest =>
        match get_profiles (length text) rest with
        | Some profiles => Ok (ProfileArray profiles)
        | None => Throw (mkError "Unexpected token")
        end
    | [110; 117; 108; 108] => Ok NotArray
    | _ => Throw (mkError "Unexpected token")
    end
|}.

(** A client in front of a server that accepts everyone: every call
    returns, the connection gets ready and, once ended, closes. *)
#[local] Instance accepting : Ssh2 := {|
  Client_connect _ := Emits [ready; close]
|}.

(** A client that checks the host before it opens a socket, and finds no
    server behind any host. *)
#[local] Instance checking : Ssh2 := {|
  Client_connect config :=
    if falsy (cfg_host config) then Throws (mkError "Invalid host")
    else Emits [error (mkError "connect ECONNREFUSED"); close]
|}.

(** A browser with an empty store of five million units, whose random
    source counts up from zero. *)
Definition fresh : World := {|
  entropy i := byte_of_N (N.of_nat i mod 256);
  has_randomUUID := true;
  clock := 1700000000000;
  math_random _ := lit "0.4fzyo82mvyr";
  console := [];
  localStorage := ∅;
  quota := 5000000
|}.

(** The same browser with a store that has no room. *)
Definition full : World := {|
  entropy := entropy fresh;
  has_randomUUID := true;
  clock := clock fresh;
  math_random := math_random fresh;
  console := [];
  localStorage := ∅;
  quota := 0
|}.


(** The browser with a collection in its store, and the same with no room
    left beside it. *)
Definition holding (profiles : list ConnectionProfile) : World :=
  with_localStorage
    (<[PROFILES_STORAGE_KEY := JSON_stringify profiles]> ∅) fresh.
Definition cramped (profiles : list ConnectionProfile) : World := {|
  entropy := entropy fresh;
  has_randomUUID := true;
  clock := clock fresh;
  math_random := math_random fresh;
  console := [];
  localStorage := localStorage (holding profiles);
  quota := usage (localStorage (holding profiles))
|}.

(** A key of 32 bytes, a profile, and parameters without a host. *)
Definition key32 : Buffer :=
  map (fun i => byte_of_N (N.of_nat i)) (seq 100 32).
Definition web : ProfileData :=
  mkData (lit "web")
    (mkParams (lit "example.org") 22 (lit "root") (Some (lit "hunter2"))
       None None).
Definition web_id : jsstring := lit "00010203-0405-4607-8809-0a0b0c0d0e0f".
Definition web_renamed : ProfileData :=
  mkData (lit "web server") (params web).
Definition no_host : SSHConnectionParams :=
  mkParams [] 22 (lit "root") (Some (lit "hunter2")) None None.

End StandIn.

(** ** Notions used in further statements *)

(** [s.toWellFormed()]: the string with every surrogate that is not half
    of a pair replaced by U+FFFD. *)
Fixpoint to_well_formed (s : jsstring) : jsstring :=
  match s with
  | [] => []
  | u :: rest =>
      if Utf8.is_high u then
        match rest with
        | l :: rest' =>
            if Utf8.is_low l then u :: l :: to_well_formed rest'
            else Utf8.REPLACEMENT :: to_well_formed rest
        | [] => [Utf8.REPLACEMENT]
        end
      else if Utf8.is_low u then Utf8.REPLACEMENT :: to_well_formed rest
      else u :: to_well_formed rest
  end.

(** The collection [getProfiles] reads in a world. *)
Definition collection {json : ProfileService.Json} (w : World)
  : list ConnectionProfile :=
  match fst (ProfileService.getProfiles w) with
  | Ok profiles => profiles
  | Throw _ => []
  end.

(** The same world with another quota. *)
Definition with_quota (q : N) (w : World) : World :=
  mkWorld (entropy w) (has_randomUUID w) (clock w) (math_random w)
    (console w) (localStorage w) q.

(** What the first event that is not [ready] makes of a pending promise. *)
Fixpoint first_settling (events : list SshService.ClientEvent)
  : SshService.PromiseState :=
  match events with
  | [] => SshService.Pending
  | SshService.ready :: rest => first_settling rest
  | SshService.error err :: _ => SshService.Rejected err
  | SshService.close :: _ => SshService.Resolved
  end.

Definition is_ready (event : SshService.ClientEvent) : bool :=
  match event with SshService.ready => true | _ => false end.

(** A world keeps the other keys of another: whatever is stored under a
    key that is not the service's is the same in both. *)
Definition other_keys_kept (w w' : World) : Prop :=
  forall k,
    k <> ProfileService.PROFILES_STORAGE_KEY ->
    localStorage w' !! k = localStorage w !! k.

(** Whether the store of a world has room for the text of a collection
    under the service's key. *)
Definition has_room {json : ProfileService.Json}
    (profiles : list ConnectionProfile) (w : World) : bool :=
  usage (<[ProfileService.PROFILES_STORAGE_KEY :=
             ProfileService.JSON_stringify profiles]> (localStorage w))
  <=? quota w.

(** ** Samples for the further statements *)

(** The envelope of "secret" under the 32-byte key on the fresh browser
    with the sealing cipher, and the browser after the 16 bytes were
    drawn. *)
Definition sealed : jsstring :=
  to_hex (map (entropy StandIn.fresh) (seq 0 16))
  ++ colon
     :: to_hex (StandIn.key32 ++ map (entropy StandIn.fresh) (seq 0 16)
                ++ Utf8.encode (lit "secret")).
Definition drawn : World :=
  with_entropy (fun i => entropy StandIn.fresh (16 + i)%nat) StandIn.fresh.

(** Two records with one id, and a record with an id of its own. *)
Definition twins : list ConnectionProfile :=
  [mkProfile StandIn.web_id StandIn.web;
   mkProfile StandIn.web_id StandIn.web_renamed].
Definition first : ConnectionProfile :=
  mkProfile (lit "first") StandIn.web.

(** A build of Node without the cipher: every cipher and decipher run
    throws. *)
Definition unsupported : NodeCrypto := {|
  pbkdf2Sync password salt _ keylen _ := StandIn.spread password salt keylen;
  cipher_run _ _ _ _ := Throw (mkError "Unknown cipher");
  decipher_run _ _ _ _ := Throw (mkError "Unknown cipher")
|}.

(** A client whose connection gets ready, closes, and reports an error
    after that. *)
Definition late_error : SshService.Ssh2 := {|
  SshService.Client_connect _ :=
    SshService.Emits
      [SshService.ready; SshService.close;
       SshService.error (mkError "read ECONNRESET")]
|}.

(** The browser with a text in its store that does not parse. *)
Definition garbled : World :=
  with_localStorage (<[ProfileService.PROFILES_STORAGE_KEY := lit "{"]> ∅)
    StandIn.fresh.

(** A second record with an id of its own. *)
Definition second : ConnectionProfile :=
  mkProfile (lit "second") StandIn.web_renamed.
Definition third : ConnectionProfile :=
  mkProfile (lit "third") StandIn.web.

(** * Properties *)

(** ** Laws of the hex codec *)

Lemma unhex_hex_digit n : n < 16 -> unhex (hex_digit n) = Some n.
Proof.
  intros Hn. unfold unhex, hex_digit.
  destruct (N.ltb_spec n 10).
  - rewrite (proj2 (N.leb_le 48 (48 + n))), (proj2 (N.leb_le (48 + n) 57))
      by lia.
    cbn [andb]. f_equal. lia.
  - rewrite (proj2 (N.leb_gt (87 + n) 57)) by lia.
    rewrite andb_false_r.
    rewrite (proj2 (N.leb_le 97 (87 + n))), (proj2 (N.leb_le (87 + n) 102))
      by lia.
    cbn [andb]. f_equal. lia.
Qed.

Lemma hex_digit_not_colon n : hex_digit n <> 58.
Proof. unfold hex_digit. destruct (N.ltb_spec n 10); lia. Qed.

Lemma byte_of_to_N b : byte_of_N (Byte.to_N b) = b.
Proof. unfold byte_of_N. now rewrite Byte.of_to_N. Qed.

Lemma to_N_lt_256 b : Byte.to_N b < 256.
Proof. pose proof (Byte.to_N_bounded b). lia. Qed.

Lemma to_N_byte_of_N n : n < 256 -> Byte.to_N (byte_of_N n) = n.
Proof.
  intros H. unfold byte_of_N.
  destruct (Byte.of_N n) eqn:E.
  - now apply Byte.to_of_N.
  - apply Byte.of_N_None_iff in E. lia.
Qed.

(** Reading hex back gives the bytes that were written. *)
Lemma from_hex_to_hex buf : from_hex (to_hex buf) = buf.
Proof.
  induction buf as [|b buf IH]; [reflexivity|].
  cbn [to_hex flat_map app from_hex].
  pose proof (to_N_lt_256 b) as Hb.
  rewrite !unhex_hex_digit.
  - fold (to_hex buf). rewrite IH. f_equal.
    rewrite <- (N.div_mod' (Byte.to_N b) 16). apply byte_of_to_N.
  - apply N.mod_lt. lia.
  - apply N.Div0.div_lt_upper_bound. lia.
Qed.


Lemma to_hex_length buf : length (to_hex buf) = (2 * length buf)%nat.
Proof.
  induction buf as [|b buf IH]; [reflexivity|].
  cbn [to_hex flat_map app length]. fold (to_hex buf). lia.
Qed.

Lemma to_hex_no_colon buf : Forall (fun u => u <> 58) (to_hex buf).
Proof.
  induction buf as [|b buf IH]; [constructor|].
  cbn [to_hex flat_map app]. fold (to_hex buf).
  repeat constructor; auto using hex_digit_not_colon.
Qed.

(** ** Laws of [split] *)

Lemma split_acc_no_sep sep cur s rest :
  Forall (fun u => u <> sep) s ->
  split_acc sep cur (s ++ rest) = split_acc sep (rev s ++ cur) rest.
Proof.
  intros Hs. revert cur.
  induction Hs as [|u s Hu _ IH]; intros cur; [reflexivity|].
  cbn [app split_acc rev]. rewrite (proj2 (N.eqb_neq u sep) Hu).
  rewrite IH, <- app_assoc. reflexivity.
Qed.

(** A text with one separator splits into what stands before and what
    stands after it. *)
Lemma split_one sep a b :
  Forall (fun u => u <> sep) a -> Forall (fun u => u <> sep) b ->
  split (a ++ sep :: b) sep = [a; b].
Proof.
  intros Ha Hb. unfold split.
  rewrite split_acc_no_sep by assumption.
  cbn [split_acc]. rewrite N.eqb_refl, app_nil_r, rev_involutive.
  f_equal.
  rewrite <- (app_nil_r b) at 1.
  rewrite split_acc_no_sep by assumption.
  cbn [split_acc]. now rewrite app_nil_r, rev_involutive.
Qed.

(** ** Laws of the UTF-8 codec *)

Section Utf8Laws.
Import Utf8.

(** Decide a range test of the codec on the facts at hand. *)
Ltac range_test :=
  match goal with
  | |- context [N.leb ?x ?y] =>
      first [ rewrite (proj2 (N.leb_le x y)) by lia
            | rewrite (proj2 (N.leb_gt x y)) by lia ]
  | |- context [N.ltb ?x ?y] =>
      first [ rewrite (proj2 (N.ltb_lt x y)) by lia
            | rewrite (proj2 (N.ltb_ge x y)) by lia ]
  | |- context [N.eqb ?x ?y] =>
      first [ rewrite (proj2 (N.eqb_eq x y)) by lia
            | rewrite (proj2 (N.eqb_neq x y)) by lia ]
  end.
Ltac range_tests := repeat (range_test; cbn [andb negb]).

Lemma mod_offset k a m q : a = k * m -> q < m -> (a + q) mod m = q.
Proof.
  intros -> Hq. symmetry. apply (N.mod_unique _ m k); [assumption | lia].
Qed.

Lemma decode_encode_cp1 c rest :
  c < 0x80 ->
  decode_from Boundary (encode_cp c ++ rest)
  = units_of_cp c ++ decode_from Boundary rest.
Proof.
  intros Hc. unfold encode_cp, units_of_cp. range_tests.
  cbn [app decode_from]. unfold step, lead.
  rewrite to_N_byte_of_N by lia. range_tests. reflexivity.
Qed.

Lemma decode_encode_cp2 c rest :
  0x80 <= c < 0x800 ->
  decode_from Boundary (encode_cp c ++ rest)
  = units_of_cp c ++ decode_from Boundary rest.
Proof.
  intros Hc. unfold encode_cp, units_of_cp. range_tests.
  pose proof (N.div_mod' c 64) as E.
  pose proof (N.mod_lt c 64 ltac:(lia)) as Hr.
  set (q := c / 64) in *. set (r := c mod 64) in *.
  cbn [app decode_from]. unfold step at 1, lead.
  rewrite !to_N_byte_of_N by lia. range_tests.
  cbn [app]. unfold step.
  rewrite (mod_offset 6 _ 32 q), (mod_offset 2 _ 64 r) by lia.
  range_tests. unfold units_of_cp. range_tests. cbn [app].
  do 2 f_equal. lia.
Qed.

Lemma decode_encode_cp3 c rest :
  0x800 <= c < 0x10000 -> ~ (0xD800 <= c <= 0xDFFF) ->
  decode_from Boundary (encode_cp c ++ rest)
  = units_of_cp c ++ decode_from Boundary rest.
Proof.
  intros Hc Hs. unfold encode_cp, units_of_cp. range_tests.
  pose proof (N.div_mod' c 64) as E.
  pose proof (N.mod_lt c 64 ltac:(lia)) as Hr.
  pose proof (N.div_mod' (c / 64) 64) as E1.
  pose proof (N.mod_lt (c / 64) 64 ltac:(lia)) as Hm.
  rewrite N.Div0.div_div in E1. change (64 * 64) with 4096 in E1.
  set (q := c / 4096) in *. set (m := (c / 64) mod 64) in *.
  set (r := c mod 64) in *. clearbody q m r.
  assert (Eq : c = 4096 * q + 64 * m + r) by lia. clear E E1.
  cbn [app decode_from]. unfold step at 1, lead.
  rewrite !to_N_byte_of_N by lia.
  rewrite (mod_offset 14 _ 16 q) by lia.
  destruct (N.eq_dec q 0) as [Hq0|Hq0];
    [|destruct (N.eq_dec q 13) as [Hq13|Hq13]];
    range_tests; cbn [app]; unfold step at 1;
    range_tests; cbn [app]; unfold step;
    rewrite !(mod_offset 2 _ 64) by lia;
    range_tests; unfold units_of_cp; range_tests; cbn [app];
    do 2 f_equal; lia.
Qed.

Lemma decode_encode_cp4 c rest :
  0x10000 <= c < 0x110000 ->
  decode_from Boundary (encode_cp c ++ rest)
  = units_of_cp c ++ decode_from Boundary rest.
Proof.
  intros Hc. unfold encode_cp. range_tests.
  pose proof (N.div_mod' c 64) as E.
  pose proof (N.mod_lt c 64 ltac:(lia)) as Hr.
  pose proof (N.div_mod' (c / 64) 64) as E1.
  pose proof (N.mod_lt (c / 64) 64 ltac:(lia)) as Hm.
  pose proof (N.div_mod' (c / 4096) 64) as E2.
  pose proof (N.mod_lt (c / 4096) 64 ltac:(lia)) as Hm2.
  rewrite N.Div0.div_div in E1, E2.
  change (64 * 64) with 4096 in E1. change (4096 * 64) with 262144 in E2.
  set (q := c / 262144) in *. set (m2 := (c / 4096) mod 64) in *.
  set (m := (c / 64) mod 64) in *. set (r := c mod 64) in *.
  assert (Eq : c = 262144 * q + 4096 * m2 + 64 * m + r) by lia.
  clearbody q m2 m r. clear E E1 E2.
  cbn [app decode_from]. unfold step at 1, lead.
  rewrite !to_N_byte_of_N by lia.
  rewrite (mod_offset 30 _ 8 q) by lia.
  destruct (N.eq_dec q 0) as [Hq0|Hq0];
    [|destruct (N.eq_dec q 4) as [Hq4|Hq4]];
    range_tests; cbn [app]; unfold step at 1;
    range_tests; cbn [app]; unfold step at 1;
    range_tests; cbn [app]; unfold step;
    rewrite !(mod_offset 2 _ 64) by lia;
    range_tests; cbn [app];
    do 2 f_equal; lia.
Qed.

(** The decoder reads the encoding of a code point that is no surrogate as
    that code point, and is at a boundary again. *)
Lemma decode_encode_cp c rest :
  c < 0x110000 -> ~ (0xD800 <= c <= 0xDFFF) ->
  decode_from Boundary (encode_cp c ++ rest)
  = units_of_cp c ++ decode_from Boundary rest.
Proof.
  intros Hc Hs.
  destruct (N.lt_ge_cases c 0x80); [now apply decode_encode_cp1|].
  destruct (N.lt_ge_cases c 0x800); [now apply decode_encode_cp2|].
  destruct (N.lt_ge_cases c 0x10000); [now apply decode_encode_cp3|].
  now apply decode_encode_cp4.
Qed.

Lemma units_of_pair h l :
  is_high h = true -> is_low l = true ->
  0x10000 <= pair_cp h l < 0x110000 /\ units_of_cp (pair_cp h l) = [h; l].
Proof.
  unfold is_high, is_low, pair_cp, units_of_cp.
  intros [H1 H2]%andb_true_iff [L1 L2]%andb_true_iff.
  apply N.leb_le in H1, H2, L1, L2.
  split; [lia|]. range_tests.
  replace (0x10000 + (h - 0xD800) * 0x400 + (l - 0xDC00) - 0x10000)
    with ((h - 0xD800) * 0x400 + (l - 0xDC00)) by lia.
  rewrite <- (N.div_unique _ 0x400 (h - 0xD800) (l - 0xDC00)) by lia.
  rewrite <- (N.mod_unique _ 0x400 (h - 0xD800) (l - 0xDC00)) by lia.
  f_equal; [lia | f_equal; lia].
Qed.

Lemma utf8_decode_encode_upto (n : nat) (s : jsstring) :
  (length s <= n)%nat -> well_formed s = true ->
  decode (encode s) = s.
Proof.
  unfold decode. revert s.
  induction n as [|n IH]; intros [|u rest] Hlen Hwf; try reflexivity.
  - cbn in Hlen. lia.
  - cbn [length] in Hlen. cbn [well_formed encode] in *.
    destruct (is_high u) eqn:Hh.
    + destruct rest as [|l rest']; [discriminate|].
      apply andb_true_iff in Hwf as [Hl Hwf]. rewrite Hl.
      destruct (units_of_pair u l Hh Hl) as [Hrange Hunits].
      rewrite decode_encode_cp4 by assumption.
      rewrite Hunits. cbn [app]. do 2 f_equal.
      apply IH; [cbn [length] in Hlen; lia | assumption].
    + apply andb_true_iff in Hwf as [[Hl Hu]%andb_true_iff Hwf].
      apply negb_true_iff in Hl. rewrite Hl.
      apply N.ltb_lt in Hu.
      rewrite decode_encode_cp.
      * unfold units_of_cp. range_tests. cbn [app]. f_equal.
        apply IH; [lia | assumption].
      * lia.
      * unfold is_high, is_low in Hh, Hl.
        apply andb_false_iff in Hh, Hl. rewrite !N.leb_gt in Hh, Hl. lia.
Qed.

(** Decoding gives back every well-formed string that was encoded. *)
Lemma utf8_decode_encode (s : jsstring) :
  well_formed s = true -> decode (encode s) = s.
Proof. apply (utf8_decode_encode_upto (length s)). lia. Qed.

End Utf8Laws.

Example utf8_ascii :
  Utf8.decode (Utf8.encode (lit "secret")) = lit "secret".
Proof. reflexivity. Qed.

Example utf8_pair :
  Utf8.encode [0xD83D; 0xDE00] = [xf0; x9f; x98; x80] /\
  Utf8.decode [xf0; x9f; x98; x80] = [0xD83D; 0xDE00].
Proof. split; reflexivity. Qed.

(** A surrogate without its partner is encoded as U+FFFD, and that is
    what comes back. *)
Example utf8_lone_surrogate :
  Utf8.encode [0xD800] = [xef; xbf; xbd] /\
  Utf8.decode [xef; xbf; xbd] = [0xFFFD].
Proof. split; reflexivity. Qed.

Example utf8_ill_formed :
  Utf8.decode [xe2; x82] = [0xFFFD] /\
  Utf8.decode [xe2; x41] = [0xFFFD; 0x41] /\
  Utf8.decode [xc0; x80] = [0xFFFD; 0xFFFD] /\
  Utf8.decode [xed; xa0; x80] = [0xFFFD; 0xFFFD; 0xFFFD] /\
  Utf8.decode [xef; xbb; xbf; x41] = [0xFEFF; 0x41].
Proof. repeat split; reflexivity. Qed.

(** ** The crypto utility *)

Section VaultFacts.
Import Vault.
Context {crypto : NodeCrypto}.

(** Unfold the plumbing of a computation. *)
Ltac run :=
  cbv beta iota delta
    [try_catch mbind M_bind bind randomBytes lift mret M_ret ret throw
     console_error getItem Date_now Math_random_toString36].

Lemma key_length_ok (key : Buffer) :
  length key = 32%nat -> negb (length key =? KEY_LENGTH)%nat = false.
Proof. intros ->. reflexivity. Qed.

Lemma key_length_wrong (key : Buffer) :
  length key <> 32%nat -> negb (length key =? KEY_LENGTH)%nat = true.
Proof.
  intros H. apply negb_true_iff, Nat.eqb_neq. exact H.
Qed.

Lemma drawn_length (w : World) (n : nat) :
  length (map (entropy w) (seq 0 n)) = n.
Proof. now rewrite length_map, length_seq. Qed.

(** C3. A key that is not 32 bytes long makes [encrypt] and [decrypt]
    throw the key length error, whatever the text, before anything else
    is done: no random byte is drawn and nothing is printed. *)
Theorem wrong_key_length_rejected
    (text envelope : jsstring) (key : Buffer) (w : World) :
  length key <> 32%nat ->
  encrypt text key w = (Throw key_length_error, w)
  /\ decrypt envelope key w = (Throw key_length_error, w)
  /\ message key_length_error = "Secret key must be 32 bytes long."%string.
Proof.
  intros Hkey. unfold encrypt, decrypt.
  rewrite (key_length_wrong key Hkey). repeat split.
Qed.

(** C4. Under a 32-byte key, [decrypt] throws one of its two errors about
    the form of the envelope, the ones its handler passes on as they are,
    when the envelope does not split into two segments at ":" or when the
    first segment is not the hex of 16 bytes. *)
Theorem malformed_envelope_rejected
    (envelope : jsstring) (key : Buffer) (w : World) :
  length key = 32%nat ->
  (length (split envelope colon) <> 2%nat
   \/ exists iv_hex ct_hex,
        split envelope colon = [iv_hex; ct_hex]
        /\ length (from_hex iv_hex) <> 16%nat) ->
  exists e,
    fst (decrypt envelope key w) = Throw e
    /\ (e = format_error \/ e = iv_length_error)
    /\ passed_on e = true.
Proof.
  intros Hkey Hform. unfold decrypt. rewrite (key_length_ok key Hkey).
  destruct Hform as [Hparts | (iv_hex & ct_hex & Hparts & Hiv)].
  - exists format_error. split; [|split; [now left | reflexivity]].
    destruct (split envelope colon) as [|p0 [|p1 [|p2 parts]]];
      try reflexivity.
    now contradiction Hparts.
  - exists iv_length_error. split; [|split; [now right | reflexivity]].
    rewrite Hparts. run.
    change IV_LENGTH with 16%nat at 1.
    rewrite (proj2 (Nat.eqb_neq _ _) Hiv). reflexivity.
Qed.

(** The failures of the vault reach the caller as thrown errors. *)
Lemma generateKeyFromPassword_throws_empty
    (password salt : jsstring) (w : World) :
  password = [] \/ salt = [] ->
  throws (generateKeyFromPassword password salt) w
    (mkError "Password and salt are required to generate a key.").
Proof.
  intros H. exists w. unfold generateKeyFromPassword.
  destruct H as [-> | ->]; [reflexivity|].
  now rewrite orb_true_r.
Qed.

Lemma vault_throws_wrong_key
    (text envelope : jsstring) (key : Buffer) (w : World) :
  length key <> 32%nat ->
  throws (encrypt text key) w key_length_error
  /\ throws (decrypt envelope key) w key_length_error.
Proof.
  intros Hkey. split; exists w; unfold encrypt, decrypt;
    now rewrite (key_length_wrong key Hkey).
Qed.

Lemma encrypt_throws_cipher_failure
    (text : jsstring) (key : Buffer) (w : World) (e : Error) :
  length key = 32%nat ->
  cipher_run ALGORITHM key (map (entropy w) (seq 0 IV_LENGTH))
    (Utf8.encode text) = Throw e ->
  throws (encrypt text key) w (mkError "Encryption process failed.").
Proof.
  intros Hkey He. eexists. unfold encrypt.
  rewrite (key_length_ok key Hkey). run. rewrite He. reflexivity.
Qed.

Lemma decrypt_throws_bad_form
    (envelope : jsstring) (key : Buffer) (w : World) :
  length key = 32%nat ->
  (length (split envelope colon) <> 2%nat ->
   throws (decrypt envelope key) w format_error)
  /\ (forall iv_hex ct_hex,
        split envelope colon = [iv_hex; ct_hex] ->
        length (from_hex iv_hex) <> 16%nat ->
        throws (decrypt envelope key) w iv_length_error).
Proof.
  intros Hkey. split.
  - intros Hparts. eexists. unfold decrypt.
    rewrite (key_length_ok key Hkey).
    destruct (split envelope colon) as [|p0 [|p1 [|p2 parts]]];
      try reflexivity.
    now contradiction Hparts.
  - intros iv_hex ct_hex Hparts Hiv. eexists. unfold decrypt.
    rewrite (key_length_ok key Hkey), Hparts. run.
    change IV_LENGTH with 16%nat at 1.
    rewrite (proj2 (Nat.eqb_neq _ _) Hiv). reflexivity.
Qed.

Lemma decrypt_throws_decipher_failure
    (envelope iv_hex ct_hex : jsstring) (key : Buffer) (w : World)
    (e : Error) :
  length key = 32%nat ->
  split envelope colon = [iv_hex; ct_hex] ->
  length (from_hex iv_hex) = 16%nat ->
  decipher_run ALGORITHM key (from_hex iv_hex) (from_hex ct_hex) = Throw e ->
  throws (decrypt envelope key) w
    (if passed_on e then e
     else mkError "Decryption process failed. Check key or data integrity.").
Proof.
  intros Hkey Hparts Hiv He. eexists. unfold decrypt.
  rewrite (key_length_ok key Hkey), Hparts. run.
  rewrite Hiv. change (negb (16 =? IV_LENGTH)%nat) with false. cbv iota.
  rewrite He. destruct (passed_on e); reflexivity.
Qed.

Context {laws : NodeCryptoLaws crypto}.

(** C5. For a password and a salt that are not empty,
    [generateKeyFromPassword] returns one key of 32 bytes, the same in
    every state of the world, and leaves the world as it was. *)
Theorem generateKeyFromPassword_deterministic (password salt : jsstring) :
  password <> [] -> salt <> [] ->
  exists key,
    length key = 32%nat
    /\ forall w, generateKeyFromPassword password salt w = (Ok key, w).
Proof.
  intros Hp Hs.
  exists (pbkdf2Sync password salt 100000 KEY_LENGTH "sha512").
  split; [apply pbkdf2Sync_length|].
  intros w. unfold generateKeyFromPassword.
  destruct password; [contradiction|]. destruct salt; [contradiction|].
  reflexivity.
Qed.

(** What [encrypt] returns under a 32-byte key: the hex of the next 16
    random bytes, a colon, and the hex of what the cipher makes of the
    text's UTF-8 bytes under key and IV. *)
Lemma encrypt_ok (text : jsstring) (key : Buffer) (w : World) :
  length key = 32%nat ->
  let iv := map (entropy w) (seq 0 IV_LENGTH) in
  exists ct,
    cipher_run ALGORITHM key iv (Utf8.encode text) = Ok ct
    /\ decipher_run ALGORITHM key iv ct = Ok (Utf8.encode text)
    /\ encrypt text key w
       = (Ok (to_hex iv ++ lit ":" ++ to_hex ct),
          with_entropy (fun i => entropy w (IV_LENGTH + i)%nat) w).
Proof.
  intros Hkey iv.
  destruct (decipher_cipher key iv (Utf8.encode text) Hkey
              (drawn_length w IV_LENGTH)) as (ct & Hct & Hpt).
  exists ct. split; [exact Hct | split; [exact Hpt |]].
  unfold encrypt. rewrite (key_length_ok key Hkey). run.
  fold iv. unfold ALGORITHM in *. rewrite Hct. reflexivity.
Qed.

(** [decrypt] reads an envelope of that form back. *)
Lemma decrypt_envelope (key iv ct data : Buffer) (w : World) :
  length key = 32%nat -> length iv = 16%nat ->
  decipher_run ALGORITHM key iv ct = Ok data ->
  decrypt (to_hex iv ++ lit ":" ++ to_hex ct) key w
  = (Ok (Utf8.decode data), w).
Proof.
  intros Hkey Hiv Hdata. unfold decrypt. rewrite (key_length_ok key Hkey).
  change (lit ":" ++ to_hex ct) with (colon :: to_hex ct).
  rewrite split_one by apply to_hex_no_colon.
  run. rewrite !from_hex_to_hex, Hiv. cbn [Nat.eqb negb IV_LENGTH].
  change (negb (16 =? 16)%nat) with false. cbv iota.
  unfold ALGORITHM in *. rewrite Hdata. reflexivity.
Qed.

(** Decrypting what [encrypt] returned gives the text as its UTF-8
    encoding decodes. *)
Lemma decrypt_encrypt (text : jsstring) (key : Buffer) (w : World) :
  length key = 32%nat ->
  exists envelope w',
    encrypt text key w = (Ok envelope, w')
    /\ forall w'',
         decrypt envelope key w''
         = (Ok (Utf8.decode (Utf8.encode text)), w'').
Proof.
  intros Hkey.
  destruct (encrypt_ok text key w Hkey) as (ct & _ & Hpt & Henc).
  eexists _, _. split; [exact Henc|].
  intros w''. apply decrypt_envelope; [assumption | apply drawn_length |].
  exact Hpt.
Qed.

(** C1, as amended. For every text that is well-formed UTF-16 and every
    32-byte key, [encrypt] returns an envelope, and [decrypt] of that
    envelope under the same key returns the text. *)
Theorem decrypt_encrypt_well_formed
    (text : jsstring) (key : Buffer) (w : World) :
  length key = 32%nat -> Utf8.well_formed text = true ->
  exists envelope w',
    encrypt text key w = (Ok envelope, w')
    /\ forall w'', decrypt envelope key w'' = (Ok text, w'').
Proof.
  intros Hkey Hwf.
  destruct (decrypt_encrypt text key w Hkey) as (envelope & w' & He & Hd).
  exists envelope, w'. split; [exact He|].
  intros w''. rewrite Hd, utf8_decode_encode by assumption. reflexivity.
Qed.

(** A surrogate without its partner does not come back, under any cipher
    that keeps the law: the text is encrypted as U+FFFD. *)
Lemma decrypt_encrypt_lone_surrogate (key : Buffer) (w : World) :
  length key = 32%nat ->
  exists envelope w',
    encrypt [0xD800] key w = (Ok envelope, w')
    /\ forall w'', decrypt envelope key w'' = (Ok [0xFFFD], w'').
Proof. intros Hkey. exact (decrypt_encrypt [0xD800] key w Hkey). Qed.




End VaultFacts.

(** ** The profile service *)

Section ProfileFacts.
Import ProfileService.
Context {json : Json}.

Ltac run :=
  cbv beta iota delta
    [try_catch mbind M_bind bind randomBytes lift mret M_ret ret throw
     console_error getItem Date_now Math_random_toString36 randomUUID].

Lemma with_console_same (w : World) : with_console (console w) w = w.
Proof. now destruct w. Qed.

(** [getProfiles] always returns, and changes nothing but the console. *)
Lemma getProfiles_returns (w : World) :
  exists profiles printed,
    getProfiles w = (Ok profiles, with_console printed w).
Proof.
  unfold getProfiles. run.
  destruct (localStorage w !! PROFILES_STORAGE_KEY) as [text|].
  - destruct (falsy text).
    + exists [], (console w). now rewrite with_console_same.
    + destruct (JSON_parse text) as [[profiles|]|e].
      * exists profiles, (console w). now rewrite with_console_same.
      * exists [], (console w). now rewrite with_console_same.
      * eexists [], _. reflexivity.
  - exists [], (console w). now rewrite with_console_same.
Qed.

(** A read that fails is printed and read as the empty collection. *)
Lemma getProfiles_unreadable (w : World) (text : jsstring) (e : Error) :
  localStorage w !! PROFILES_STORAGE_KEY = Some text ->
  falsy text = false -> JSON_parse text = Throw e ->
  getProfiles w
  = (Ok [],
     with_console
       (console w ++ [("Error retrieving profiles from localStorage:"%string,
                       e)]) w).
Proof.
  intros Hget Htext Hparse. unfold getProfiles. run.
  rewrite Hget, Htext, Hparse. reflexivity.
Qed.

(** [saveProfiles] when the store takes the text, and when it does not. *)
Lemma saveProfiles_stored (profiles : list ConnectionProfile) (w : World) :
  usage (<[PROFILES_STORAGE_KEY := JSON_stringify profiles]> (localStorage w))
  <= quota w ->
  saveProfiles profiles w
  = (Ok tt,
     with_localStorage
       (<[PROFILES_STORAGE_KEY := JSON_stringify profiles]> (localStorage w))
       w).
Proof.
  intros Hroom. unfold saveProfiles, setItem. run.
  now rewrite (proj2 (N.leb_le _ _) Hroom).
Qed.

Lemma saveProfiles_refused (profiles : list ConnectionProfile) (w : World) :
  quota w
  < usage (<[PROFILES_STORAGE_KEY := JSON_stringify profiles]>
             (localStorage w)) ->
  saveProfiles profiles w
  = (Ok tt,
     with_console
       (console w ++ [("Error saving profiles to localStorage:"%string,
                       QuotaExceededError)]) w).
Proof.
  intros Hroom. unfold saveProfiles, setItem. run.
  now rewrite (proj2 (N.leb_gt _ _) Hroom).
Qed.

Lemma to_radix36_not_empty (fuel : nat) (n : N) (acc : jsstring) :
  acc <> [] -> to_radix36 fuel n acc <> [].
Proof.
  revert n acc. induction fuel as [|fuel IH]; intros n acc Hacc;
    [exact Hacc|].
  cbn [to_radix36]. destruct (n / 36 =? 0); [discriminate|].
  apply IH. discriminate.
Qed.

Lemma toString36_not_empty (n : N) : toString36 n <> [].
Proof.
  unfold toString36. cbn [to_radix36].
  destruct (n / 36 =? 0); [discriminate|].
  apply to_radix36_not_empty. discriminate.
Qed.

Lemma uuid_v4_not_empty (bytes : Buffer) : uuid_v4 bytes <> [].
Proof.
  unfold uuid_v4. intros H. apply app_eq_nil in H as [_ H]. discriminate H.
Qed.

(** [generateId] always returns an id that is not empty, and touches
    neither the store nor the console. *)
Lemma generateId_returns (w : World) :
  exists newId w',
    generateId w = (Ok newId, w')
    /\ newId <> []
    /\ localStorage w' = localStorage w
    /\ quota w' = quota w
    /\ console w' = console w.
Proof.
  unfold generateId. destruct (has_randomUUID w); run.
  - eexists _, _. split; [reflexivity|].
    split; [apply uuid_v4_not_empty | repeat split].
  - eexists _, _. split; [reflexivity|].
    split; [|repeat split].
    intros H. apply app_eq_nil in H as [H _].
    now apply toString36_not_empty in H.
Qed.

(** The id [generateId] returns is read off the random source, or off
    the clock and [Math.random], and off nothing else: not off the
    store. *)
Lemma generateId_reads_the_sources (w1 w2 : World) :
  entropy w1 = entropy w2 -> has_randomUUID w1 = has_randomUUID w2 ->
  clock w1 = clock w2 -> math_random w1 = math_random w2 ->
  fst (generateId w1) = fst (generateId w2).
Proof.
  intros He Hu Hc Hm. unfold generateId. rewrite Hu.
  destruct (has_randomUUID w2); run; cbn [fst]; now rewrite ?He, ?Hc, ?Hm.
Qed.

Lemma findIndex_missing (profileId : jsstring)
    (profiles : list ConnectionProfile) :
  Forall (fun p => id p <> profileId) profiles ->
  findIndex profileId profiles = None.
Proof.
  intros H. unfold findIndex.
  now rewrite (proj2 (list_find_None _ profiles) H).
Qed.

Lemma findIndex_first (profileId : jsstring)
    (before after : list ConnectionProfile) (p : ConnectionProfile) :
  Forall (fun q => id q <> profileId) before -> id p = profileId ->
  findIndex profileId (before ++ p :: after) = Some (length before).
Proof.
  intros Hbefore Hp. unfold findIndex.
  rewrite list_find_app_r by now apply list_find_None.
  cbn [list_find]. rewrite decide_True by exact Hp. reflexivity.
Qed.

Lemma filter_keeps_all (profileId : jsstring)
    (profiles : list ConnectionProfile) :
  Forall (fun p => id p <> profileId) profiles ->
  filter (fun p => id p <> profileId) profiles = profiles.
Proof.
  induction 1 as [|p profiles Hp _ IH]; [reflexivity|].
  rewrite filter_cons, decide_True by exact Hp. now rewrite IH.
Qed.

Lemma filter_finds_none (profileId : jsstring)
    (profiles : list ConnectionProfile) :
  Forall (fun p => id p <> profileId) profiles ->
  filter (fun p => id p = profileId) profiles = [].
Proof.
  induction 1 as [|p profiles Hp _ IH]; [reflexivity|].
  now rewrite filter_cons, decide_False.
Qed.

(** C7. When no stored record has the id, [updateProfile] and
    [deleteProfile] return [false] and write nothing: the world they leave
    is the one [getProfiles] leaves, with the store as it was. *)
Theorem unknown_id_leaves_store
    (w w' : World) (profiles : list ConnectionProfile)
    (profileId : jsstring) (updatedProfile : ConnectionProfile) :
  getProfiles w = (Ok profiles, w') ->
  id updatedProfile = profileId ->
  Forall (fun p => id p <> profileId) profiles ->
  updateProfile updatedProfile w = (Ok false, w')
  /\ deleteProfile profileId w = (Ok false, w')
  /\ localStorage w' = localStorage w.
Proof.
  intros Hget Hid Hmissing. split; [|split].
  - unfold updateProfile. run. rewrite Hget, Hid.
    now rewrite findIndex_missing.
  - unfold deleteProfile. run. rewrite Hget.
    rewrite filter_keeps_all by assumption.
    now rewrite Nat.ltb_irrefl.
  - destruct (getProfiles_returns w) as (ps & printed & Hret).
    rewrite Hret in Hget. now inversion Hget.
Qed.

(** [saveProfiles] always returns normally. *)
Lemma saveProfiles_returns (profiles : list ConnectionProfile) (w : World) :
  exists w', saveProfiles profiles w = (Ok tt, w').
Proof.
  unfold saveProfiles, setItem. run.
  destruct (usage _ <=? quota w); eexists; reflexivity.
Qed.

(** A write that fails is printed, and [saveProfiles] returns. *)
Lemma saveProfiles_unwritable (profiles : list ConnectionProfile)
    (w : World) (e : Error) :
  throws (setItem PROFILES_STORAGE_KEY (JSON_stringify profiles)) w e ->
  saveProfiles profiles w
  = (Ok tt,
     with_console
       (console w
        ++ [("Error saving profiles to localStorage:"%string, e)]) w).
Proof.
  intros [w' H]. revert H. unfold saveProfiles, setItem. run.
  destruct (usage _ <=? quota w); [discriminate|].
  intros H. inversion H. reflexivity.
Qed.

(** The operations of the profile service always return a value. *)
Lemma profile_operations_return
    (profiles : list ConnectionProfile) (profileData : ProfileData)
    (updatedProfile : ConnectionProfile) (profileId : jsstring) (w : World) :
  returns (saveProfiles profiles) w
  /\ returns getProfiles w
  /\ returns (addProfile profileData) w
  /\ returns (updateProfile updatedProfile) w
  /\ returns (deleteProfile profileId) w.
Proof.
  unfold returns.
  destruct (getProfiles_returns w) as (stored & printed & Hget).
  split; [destruct (saveProfiles_returns profiles w); eauto|].
  split; [eauto|].
  split; [|split].
  - unfold addProfile. run. rewrite Hget.
    destruct (generateId_returns (with_console printed w))
      as (newId & wid & Hid & _). rewrite Hid.
    destruct (saveProfiles_returns
                (stored ++ [mkProfile newId profileData]) wid)
      as (w' & Hsave).
    rewrite Hsave. eauto.
  - unfold updateProfile. run. rewrite Hget.
    destruct (findIndex (id updatedProfile) stored) as [i|]; [|eauto].
    destruct (saveProfiles_returns (<[i := updatedProfile]> stored)
                (with_console printed w)) as (w' & Hsave).
    rewrite Hsave. eauto.
  - unfold deleteProfile. run. rewrite Hget.
    destruct (_ <? _)%nat; [|eauto].
    destruct (saveProfiles_returns
                (filter (fun p => id p <> profileId) stored)
                (with_console printed w)) as (w' & Hsave).
    rewrite Hsave. eauto.
Qed.

Context {laws : JsonLaws json}.

(** What was saved is what is read. *)
Lemma getProfiles_saved (profiles : list ConnectionProfile) (w : World)
    (s : gmap jsstring jsstring) :
  getProfiles
    (with_localStorage (<[PROFILES_STORAGE_KEY := JSON_stringify profiles]> s)
       w)
  = (Ok profiles,
     with_localStorage (<[PROFILES_STORAGE_KEY := JSON_stringify profiles]> s)
       w).
Proof.
  unfold getProfiles. run. cbn [localStorage with_localStorage].
  rewrite lookup_insert_eq, stringify_truthy, parse_stringify.
  reflexivity.
Qed.

(** C8, as amended. When the store has room for the new text,
    [addProfile] returns a record made of the given data and the id that
    [generateId] returned, an id that is not empty, and [getProfiles] then
    returns the collection as it was followed by that record.  The id is
    the same whatever is stored: [addProfile] does not look at the ids
    that are there. *)
Theorem addProfile_then_getProfiles
    (profileData : ProfileData) (w w0 wid : World)
    (profiles : list ConnectionProfile) (newId : jsstring) :
  getProfiles w = (Ok profiles, w0) ->
  generateId w0 = (Ok newId, wid) ->
  usage (<[PROFILES_STORAGE_KEY :=
             JSON_stringify (profiles ++ [mkProfile newId profileData])]>
           (localStorage w))
  <= quota w ->
  exists w1,
    addProfile profileData w = (Ok (mkProfile newId profileData), w1)
    /\ getProfiles w1
       = (Ok (profiles ++ [mkProfile newId profileData]), w1)
    /\ newId <> []
    /\ (forall stored : gmap jsstring jsstring,
        fst (addProfile profileData (with_localStorage stored w))
        = Ok (mkProfile newId profileData)).
Proof.
  intros Hget Hid Hroom.
  destruct (getProfiles_returns w) as (ps & printed & Hret).
  rewrite Hret in Hget. inversion Hget; subst ps w0; clear Hget.
  destruct (generateId_returns (with_console printed w))
    as (i & w' & Hret' & Hne & Hstore & Hquota & _).
  rewrite Hret' in Hid. inversion Hid; subst i w'; clear Hid.
  cbn [localStorage quota with_console] in Hstore, Hquota.
  eexists. split; [|split; [|split]].
  - unfold addProfile. run. rewrite Hret, Hret'.
    rewrite saveProfiles_stored by (now rewrite Hstore, Hquota).
    reflexivity.
  - apply getProfiles_saved.
  - exact Hne.
  - intros stored.
    destruct (getProfiles_returns (with_localStorage stored w))
      as (ps' & printed' & Hret2).
    destruct (generateId_returns
                (with_console printed' (with_localStorage stored w)))
      as (i & w' & Hret3 & _).
    assert (Hsame : i = newId).
    { pose proof (generateId_reads_the_sources
                    (with_console printed' (with_localStorage stored w))
                    (with_console printed w) eq_refl eq_refl eq_refl eq_refl)
        as H.
      rewrite Hret', Hret3 in H. cbn [fst] in H. congruence. }
    subst i. unfold addProfile. run. rewrite Hret2, Hret3.
    destruct (saveProfiles_returns
                (ps' ++ [mkProfile newId profileData]) w') as [w2 ->].
    reflexivity.
Qed.

(** X16. When the store has room for the new text, [updateProfile] on
    a profile whose id is stored returns [true], and the collection read
    afterwards is the one read before with the first record under that id
    replaced by the profile: every other record, a later one under the
    same id too, the order and the length are as they were. *)
Theorem updateProfile_replaces_first_match
    (w w0 : World) (before after : list ConnectionProfile)
    (old updatedProfile : ConnectionProfile) :
  getProfiles w = (Ok (before ++ old :: after), w0) ->
  id old = id updatedProfile ->
  Forall (fun p => id p <> id updatedProfile) before ->
  usage (<[PROFILES_STORAGE_KEY :=
             JSON_stringify (before ++ updatedProfile :: after)]>
           (localStorage w))
  <= quota w ->
  exists w1,
    updateProfile updatedProfile w = (Ok true, w1)
    /\ getProfiles w1 = (Ok (before ++ updatedProfile :: after), w1)
    /\ length (before ++ updatedProfile :: after)
       = length (before ++ old :: after).
Proof.
  intros Hget Hid Hbefore Hroom.
  destruct (getProfiles_returns w) as (ps & printed & Hret).
  rewrite Hret in Hget. inversion Hget; subst ps w0; clear Hget.
  eexists. split; [|split].
  - unfold updateProfile. run. rewrite Hret.
    rewrite (findIndex_first _ before after old Hbefore Hid).
    rewrite insert_app_r_alt, Nat.sub_diag by reflexivity.
    cbn [insert list_insert].
    rewrite saveProfiles_stored by exact Hroom.
    reflexivity.
  - apply getProfiles_saved.
  - now rewrite !length_app.
Qed.

End ProfileFacts.

(** ** The SSH service *)

Section SshFacts.
Import SshService.
Context {ssh2 : Ssh2}.

Lemma handle_connect_calls (params : SSHConnectionParams)
    (events : list ClientEvent) (r : Run) :
  connect_calls (fold_left (handle params) events r) = connect_calls r.
Proof.
  revert r. induction events as [|[|err|] events IH]; intros r;
    [reflexivity | cbn [fold_left]; rewrite IH; reflexivity ..].
Qed.

(** A rejection that was not there before the events comes from an
    [error] event. *)
Lemma handle_rejected (params : SSHConnectionParams)
    (events : list ClientEvent) (r : Run) (e : Error) :
  promise (fold_left (handle params) events r) = Rejected e ->
  promise r = Rejected e \/ In (error e) events.
Proof.
  revert r. induction events as [|event events IH]; intros r H;
    [now left|].
  cbn [fold_left] in H. apply IH in H as [H|H]; [|right; now right].
  destruct event as [|err|]; cbn in H.
  - now left.
  - destruct (promise r) eqn:Hr; try (left; congruence).
    right. left. congruence.
  - destruct (promise r) eqn:Hr; left; congruence.
Qed.

(** [ready] events settle nothing, and a settled promise stays as it
    is. *)
Lemma handle_readies (params : SSHConnectionParams)
    (readies : list ClientEvent) (r : Run) :
  Forall (eq ready) readies -> promise r = Pending ->
  promise (fold_left (handle params) readies r) = Pending.
Proof.
  intros Hready. revert r.
  induction Hready as [|event readies <- _ IH]; intros r Hr; [exact Hr|].
  cbn [fold_left]. apply IH. exact Hr.
Qed.

Lemma handle_settled (params : SSHConnectionParams)
    (events : list ClientEvent) (r : Run) (err : Error) :
  promise r = Rejected err ->
  promise (fold_left (handle params) events r) = Rejected err.
Proof.
  revert r. induction events as [|event events IH]; intros r Hr;
    [exact Hr|].
  cbn [fold_left]. apply IH. destruct event; cbn; now rewrite ?Hr.
Qed.

(** The first [error] event rejects the promise with its error. *)
Lemma connect_rejects_first_error (params : SSHConnectionParams)
    (readies rest : list ClientEvent) (err : Error) :
  Client_connect (config_of params) = Emits (readies ++ error err :: rest) ->
  Forall (eq ready) readies ->
  promise (connect params) = Rejected err.
Proof.
  intros Hcall Hready. unfold connect, executor. rewrite Hcall.
  rewrite fold_left_app. cbn [fold_left].
  apply handle_settled. cbn [handle settle print promise].
  rewrite (handle_readies params readies); [reflexivity | exact Hready |].
  reflexivity.
Qed.

(** C2, as amended. [connect] checks nothing itself.  Whatever the
    parameters, it hands them to the client's [connect], the host as it
    is, once.  If that call throws, the promise is rejected when [connect]
    returns, with the error thrown, and nothing else happens.  If it
    returns, the promise is pending, and when it is rejected later, then
    with the error of an [error] event of the client. *)
Theorem connect_defers_to_client (params : SSHConnectionParams) :
  connect_calls (connect params) = [config_of params]
  /\ cfg_host (config_of params) = host params
  /\ match Client_connect (config_of params) with
     | Throws err =>
         promise (fst (executor params)) = Rejected err
         /\ promise (connect params) = Rejected err
         /\ end_calls (connect params) = 0%nat
     | Emits events =>
         promise (fst (executor params)) = Pending
         /\ forall e,
              promise (connect params) = Rejected e -> In (error e) events
     end.
Proof.
  unfold connect, executor.
  destruct (Client_connect (config_of params)) as [err|events].
  - repeat split.
  - rewrite handle_connect_calls. repeat split.
    intros e H. apply handle_rejected in H as [H|H]; [discriminate|exact H].
Qed.

End SshFacts.

(** ** The stand-ins keep the laws *)

Lemma strip_app (prefix rest : Buffer) :
  StandIn.strip prefix (prefix ++ rest) = Some rest.
Proof.
  induction prefix as [|b prefix IH]; [reflexivity|].
  cbn [app StandIn.strip].
  now rewrite (Byte.byte_dec_lb (x:=b) (y:=b) eq_refl).
Qed.

Lemma crypto_laws : NodeCryptoLaws StandIn.crypto.
Proof.
  split.
  - intros password salt iterations keylen digest.
    cbn [pbkdf2Sync StandIn.crypto]. unfold StandIn.spread.
    now rewrite length_map, length_seq.
  - intros key iv data Hkey Hiv.
    exists (key ++ iv ++ data).
    cbn [cipher_run decipher_run StandIn.crypto].
    unfold StandIn.seal, StandIn.unseal. rewrite Hkey, Hiv.
    cbn [Nat.eqb negb]. split; [reflexivity|].
    now rewrite app_assoc, strip_app.
Qed.

Lemma get_put_text (s rest : jsstring) :
  StandIn.get_text (StandIn.put_text s ++ rest) = Some (s, rest).
Proof.
  unfold StandIn.get_text, StandIn.put_text. cbn [app].
  rewrite Nat2N.id, length_app.
  rewrite (proj2 (Nat.leb_le _ _)) by lia.
  now rewrite take_app_length, drop_app_length.
Qed.

Lemma get_put_optional (o : option jsstring) (rest : jsstring) :
  StandIn.get_optional (StandIn.put_optional o ++ rest) = Some (o, rest).
Proof.
  destruct o as [s|]; cbn [StandIn.put_optional StandIn.get_optional app];
    [|reflexivity].
  now rewrite get_put_text.
Qed.

Lemma get_put_profile (p : ConnectionProfile) (rest : jsstring) :
  StandIn.get_profile (StandIn.put_profile p ++ rest) = Some (p, rest).
Proof.
  destruct p as [i [n [h p u pw key phrase]]].
  unfold StandIn.get_profile, StandIn.put_profile.
  cbn [id data name params host port username password privateKey
         passphrase].
  rewrite <- !app_assoc.
  rewrite !get_put_text. cbn [mbind option_bind app].
  rewrite get_put_text. cbn [mbind option_bind].
  rewrite get_put_text. cbn [mbind option_bind app].
  rewrite get_put_text. cbn [mbind option_bind].
  rewrite !get_put_optional. cbn [mbind option_bind].
  rewrite get_put_optional. cbn [mbind option_bind].
  rewrite get_put_optional. reflexivity.
Qed.

Lemma get_put_profiles (profiles : list ConnectionProfile) (fuel : nat) :
  (length profiles < fuel)%nat ->
  StandIn.get_profiles fuel
    (flat_map (fun p => 1 :: StandIn.put_profile p) profiles ++ [93])
  = Some profiles.
Proof.
  revert fuel. induction profiles as [|p profiles IH]; intros fuel Hfuel;
    (destruct fuel as [|fuel]; [cbn in Hfuel; lia|]).
  - reflexivity.
  - cbn [flat_map app StandIn.get_profiles].
    rewrite <- app_assoc, get_put_profile. cbn [mbind option_bind].
    rewrite IH by (cbn [length] in Hfuel; lia). reflexivity.
Qed.

Lemma put_profiles_length (profiles : list ConnectionProfile) :
  Nat.lt (length profiles)
    (length (flat_map (fun p => 1 :: StandIn.put_profile p) profiles
             ++ [93])).
Proof.
  induction profiles as [|p profiles IH]; cbn [flat_map app length];
    [lia|].
  rewrite !length_app in *. cbn [length] in *. lia.
Qed.

Lemma json_laws : ProfileService.JsonLaws StandIn.json.
Proof.
  split; intros profiles;
    cbn [ProfileService.JSON_stringify ProfileService.JSON_parse
           StandIn.json]; [|reflexivity].
  unfold StandIn.put_profiles.
  rewrite get_put_profiles; [reflexivity|].
  cbn [length]. pose proof (put_profiles_length profiles). lia.
Qed.

(** ** The properties on the stand-ins *)

Section Examples.
Import Vault ProfileService SshService StandIn.
#[local] Existing Instance StandIn.crypto.
#[local] Existing Instance StandIn.json.

(** C1 fails on a text that is not well-formed UTF-16: the text made of
    the one surrogate U+D800 is encrypted under a 32-byte key, and
    decrypting the envelope under the same key returns the text U+FFFD. *)
Lemma lone_surrogate_is_not_restored :
  length key32 = 32%nat
  /\ match encrypt [0xD800] key32 fresh with
     | (Ok envelope, w') => decrypt envelope key32 w' = (Ok [0xFFFD], w')
     | (Throw _, _) => False
     end
  /\ [0xFFFD] <> [0xD800].
Proof.
  split; [reflexivity|]. split; [vm_compute; reflexivity | discriminate].
Qed.

(** C1, as amended, on the text "secret". *)
Lemma decrypt_encrypt_well_formed_witness :
  exists envelope w',
    encrypt (lit "secret") key32 fresh = (Ok envelope, w')
    /\ forall w'', decrypt envelope key32 w'' = (Ok (lit "secret"), w'').
Proof.
  apply (decrypt_encrypt_well_formed (laws := crypto_laws));
    [vm_compute; reflexivity | vm_compute; reflexivity].
Defined.

(** C3 on a key of two bytes. *)
Lemma wrong_key_length_rejected_witness :
  encrypt (lit "secret") [x00; x01] fresh = (Throw key_length_error, fresh)
  /\ decrypt (lit "00:00") [x00; x01] fresh
     = (Throw key_length_error, fresh)
  /\ message key_length_error = "Secret key must be 32 bytes long."%string.
Proof.
  apply (wrong_key_length_rejected (lit "secret") (lit "00:00") [x00; x01]
           fresh).
  cbn [length]. lia.
Defined.

(** C4 on an envelope without a colon, and on one whose first segment
    is the hex of two bytes. *)
Lemma malformed_envelope_rejected_witness :
  (exists e,
     fst (decrypt (lit "0011") key32 fresh) = Throw e
     /\ (e = format_error \/ e = iv_length_error) /\ passed_on e = true)
  /\ (exists e,
        fst (decrypt (lit "0011:22") key32 fresh) = Throw e
        /\ (e = format_error \/ e = iv_length_error) /\ passed_on e = true).
Proof.
  split.
  - apply (malformed_envelope_rejected (lit "0011") key32 fresh);
      [reflexivity|].
    left. vm_compute. lia.
  - apply (malformed_envelope_rejected (lit "0011:22") key32 fresh);
      [reflexivity|].
    right. exists (lit "0011"), (lit "22"). split; [reflexivity|].
    vm_compute. lia.
Defined.

(** C5 on the password "hunter2" and the salt "a1b2". *)
Lemma generateKeyFromPassword_deterministic_witness :
  exists key,
    length key = 32%nat
    /\ forall w,
         generateKeyFromPassword (lit "hunter2") (lit "a1b2") w = (Ok key, w).
Proof.
  apply (generateKeyFromPassword_deterministic (laws := crypto_laws));
    discriminate.
Defined.



(** C2 fails on a client that takes an empty host: [connect] hands the
    empty host to the client, the connection is made and ended, and the
    promise is resolved. *)
Lemma connect_empty_host_resolves :
  host no_host = []
  /\ promise (connect (ssh2 := accepting) no_host) = Resolved
  /\ connect_calls (connect (ssh2 := accepting) no_host)
     = [config_of no_host]
  /\ end_calls (connect (ssh2 := accepting) no_host) = 1%nat.
Proof. repeat split. Qed.

(** C7 on a store that holds one profile, and an id it does not have. *)
Lemma unknown_id_leaves_store_witness :
  updateProfile (mkProfile (lit "no such id") web_renamed)
    (holding [mkProfile web_id web])
  = (Ok false, holding [mkProfile web_id web])
  /\ deleteProfile (lit "no such id") (holding [mkProfile web_id web])
     = (Ok false, holding [mkProfile web_id web])
  /\ localStorage (holding [mkProfile web_id web])
     = localStorage (holding [mkProfile web_id web]).
Proof.
  apply (unknown_id_leaves_store (holding [mkProfile web_id web])
           (holding [mkProfile web_id web]) [mkProfile web_id web]
           (lit "no such id") (mkProfile (lit "no such id") web_renamed));
    [vm_compute; reflexivity | reflexivity |].
  repeat constructor. vm_compute. discriminate.
Defined.

(** C8 fails when the store has no room: [addProfile] returns the new
    record, and the collection read afterwards is the empty one it was.
    And the id is not compared with the ids in the store: in a store that
    holds a record under the id that is generated next, the new record
    gets the id of that record. *)
Lemma addProfile_not_stored_or_not_new :
  (getProfiles full = (Ok [], full)
   /\ match addProfile web full with
      | (Ok newProfile, w1) =>
          newProfile = mkProfile web_id web
          /\ fst (getProfiles w1) = Ok []
      | (Throw _, _) => False
      end)
  /\ (getProfiles (holding [mkProfile web_id web])
      = (Ok [mkProfile web_id web], holding [mkProfile web_id web])
      /\ match addProfile web_renamed (holding [mkProfile web_id web]) with
         | (Ok newProfile, w1) =>
             id newProfile = web_id
             /\ fst (getProfiles w1)
                = Ok [mkProfile web_id web; mkProfile web_id web_renamed]
         | (Throw _, _) => False
         end).
Proof.
  split; [split; [reflexivity | vm_compute; split; reflexivity]|].
  split; [vm_compute; reflexivity | vm_compute; split; reflexivity].
Qed.

(** C8, as amended, on a store with room that holds one profile: the new
    record comes after it. *)
Lemma addProfile_then_getProfiles_witness :
  exists w1,
    addProfile web (holding [first]) = (Ok (mkProfile web_id web), w1)
    /\ getProfiles w1 = (Ok ([first] ++ [mkProfile web_id web]), w1)
    /\ web_id <> []
    /\ (forall stored : gmap jsstring jsstring,
        fst (addProfile web (with_localStorage stored (holding [first])))
        = Ok (mkProfile web_id web)).
Proof.
  apply (addProfile_then_getProfiles (laws := json_laws) web
           (holding [first]) (holding [first])
           (snd (generateId (holding [first]))) [first] web_id);
    [vm_compute; reflexivity | reflexivity |].
  apply N.leb_le. vm_compute. reflexivity.
Defined.

(** C9 fails on a store without room: [setItem] throws, and
    [saveProfiles] returns as it does when the text was stored; the
    error is on the console and nowhere else.  It fails as well on a
    client that reports an error after the close: the promise is
    resolved, and the error is printed and nothing more. *)
Lemma write_failures_and_late_errors_are_swallowed :
  (fst (setItem PROFILES_STORAGE_KEY
          (JSON_stringify [mkProfile web_id web]) full)
   = Throw QuotaExceededError
   /\ fst (saveProfiles [mkProfile web_id web] full) = Ok tt
   /\ fst (saveProfiles [mkProfile web_id web] fresh) = Ok tt
   /\ console (snd (saveProfiles [mkProfile web_id web] full))
      = [("Error saving profiles to localStorage:"%string,
          QuotaExceededError)]
   /\ localStorage (snd (saveProfiles [mkProfile web_id web] full)) = ∅)
  /\ (Client_connect (Ssh2 := late_error) (config_of (params web))
      = Emits [ready; close; error (mkError "read ECONNRESET")]
      /\ promise (connect (ssh2 := late_error) (params web)) = Resolved
      /\ printed (connect (ssh2 := late_error) (params web))
         = [lit "SSH connection established to example.org";
            lit "SSH connection closed";
            lit "SSH connection error: read ECONNRESET"]).
Proof. split; vm_compute; repeat split. Qed.

(** C10. In a store that has no room for the longer text,
    [updateProfile] on a profile whose id is stored returns [true], which
    its documentation gives as found and updated, and the record read
    afterwards is the old one: the write was refused, and the refusal
    printed and nothing more. *)
Lemma updateProfile_in_cramped_store :
  getProfiles (cramped [mkProfile web_id web])
  = (Ok [mkProfile web_id web], cramped [mkProfile web_id web])
  /\ match updateProfile (mkProfile web_id web_renamed)
             (cramped [mkProfile web_id web]) with
     | (Ok found, w1) =>
         found = true
         /\ fst (getProfiles w1) = Ok [mkProfile web_id web]
         /\ console w1
            = [("Error saving profiles to localStorage:"%string,
                QuotaExceededError)]
     | (Throw _, _) => False
     end
  /\ mkProfile web_id web_renamed <> mkProfile web_id web.
Proof.
  split; [vm_compute; reflexivity|].
  split; [vm_compute; repeat split | discriminate].
Qed.

(** X16 on a store with room that holds four records, the second and the
    fourth under one id: the second is replaced, the fourth and the
    others stay, in their places. *)
Lemma updateProfile_replaces_first_match_witness :
  exists w1,
    updateProfile (mkProfile web_id web_renamed)
      (holding [first; mkProfile web_id web; second; mkProfile web_id web])
    = (Ok true, w1)
    /\ getProfiles w1
       = (Ok ([first]
              ++ mkProfile web_id web_renamed
                 :: [second; mkProfile web_id web]), w1)
    /\ length ([first] ++ mkProfile web_id web_renamed
                          :: [second; mkProfile web_id web])
       = length ([first] ++ mkProfile web_id web
                            :: [second; mkProfile web_id web]).
Proof.
  apply (updateProfile_replaces_first_match (laws := json_laws)
           (holding [first; mkProfile web_id web; second;
                     mkProfile web_id web])
           (holding [first; mkProfile web_id web; second;
                     mkProfile web_id web])
           [first] [second; mkProfile web_id web]
           (mkProfile web_id web) (mkProfile web_id web_renamed));
    [vm_compute; reflexivity | reflexivity | |].
  - repeat constructor. vm_compute. discriminate.
  - apply N.leb_le. vm_compute. reflexivity.
Defined.

End Examples.

(** ** Further properties of the crypto utility *)

Section WellFormed.
Import Utf8.

Ltac range_test :=
  match goal with
  | |- context [N.leb ?x ?y] =>
      first [ rewrite (proj2 (N.leb_le x y)) by lia
            | rewrite (proj2 (N.leb_gt x y)) by lia ]
  | |- context [N.ltb ?x ?y] =>
      first [ rewrite (proj2 (N.ltb_lt x y)) by lia
            | rewrite (proj2 (N.ltb_ge x y)) by lia ]
  end.

Lemma decode_encode_replacement rest :
  decode_from Boundary (encode_cp REPLACEMENT ++ rest)
  = REPLACEMENT :: decode_from Boundary rest.
Proof.
  rewrite decode_encode_cp by (unfold REPLACEMENT; lia). reflexivity.
Qed.

Lemma decode_encode_any_upto (n : nat) (s : jsstring) :
  (length s <= n)%nat -> Forall (fun u => u < 0x10000) s ->
  decode (encode s) = to_well_formed s.
Proof.
  unfold decode. revert s.
  induction n as [|n IH]; intros [|u rest] Hlen Hunits; try reflexivity.
  - cbn in Hlen. lia.
  - cbn [length] in Hlen. cbn [to_well_formed encode].
    apply Forall_cons in Hunits as [Hu Hrest].
    destruct (is_high u) eqn:Hh.
    + destruct rest as [|l rest'].
      * rewrite <- (app_nil_r (encode_cp REPLACEMENT)).
        now rewrite decode_encode_replacement.
      * destruct (is_low l) eqn:Hl.
        -- destruct (units_of_pair u l Hh Hl) as [Hrange Hpair].
           rewrite decode_encode_cp4 by assumption.
           rewrite Hpair. cbn [app]. do 2 f_equal.
           apply Forall_cons in Hrest as [_ Hrest'].
           apply IH; [cbn [length] in Hlen; lia | assumption].
        -- rewrite decode_encode_replacement. f_equal.
           apply IH; [lia | assumption].
    + destruct (is_low u) eqn:Hl.
      * rewrite decode_encode_replacement. f_equal.
        apply IH; [lia | assumption].
      * rewrite decode_encode_cp.
        -- unfold units_of_cp. repeat range_test. cbn [app]. f_equal.
           apply IH; [lia | assumption].
        -- lia.
        -- unfold is_high, is_low in Hh, Hl.
           apply andb_false_iff in Hh, Hl. rewrite !N.leb_gt in Hh, Hl. lia.
Qed.

(** Encoding and decoding a string of 16-bit units makes it well-formed
    and changes nothing else. *)
Lemma decode_encode_to_well_formed (s : jsstring) :
  Forall (fun u => u < 0x10000) s -> decode (encode s) = to_well_formed s.
Proof. apply (decode_encode_any_upto (length s)). lia. Qed.

Lemma to_well_formed_upto (n : nat) (s : jsstring) :
  (length s <= n)%nat ->
  (well_formed s = true -> to_well_formed s = s)
  /\ (Forall (fun u => u < 0x10000) s ->
      well_formed (to_well_formed s) = true).
Proof.
  revert s. induction n as [|n IH]; intros [|u rest] Hlen;
    try (split; reflexivity).
  - cbn in Hlen. lia.
  - cbn [length] in Hlen. cbn [to_well_formed well_formed]. split.
    + intros Hwf. destruct (is_high u) eqn:Hh.
      * destruct rest as [|l rest']; [discriminate|].
        apply andb_true_iff in Hwf as [Hl Hwf]. rewrite Hl.
        do 2 f_equal. apply IH; [cbn [length] in Hlen; lia | assumption].
      * apply andb_true_iff in Hwf as [[Hl _]%andb_true_iff Hwf].
        apply negb_true_iff in Hl. rewrite Hl. f_equal.
        apply IH; [lia | assumption].
    + intros Hunits. apply Forall_cons in Hunits as [Hu Hrest].
      assert (Hrepl : forall t, well_formed t = true ->
                well_formed (REPLACEMENT :: t) = true).
      { intros t Ht. cbn [well_formed]. now rewrite Ht. }
      destruct (is_high u) eqn:Hh.
      * destruct rest as [|l rest']; [reflexivity|].
        destruct (is_low l) eqn:Hl.
        -- cbn [well_formed]. rewrite Hh, Hl. cbn [andb].
           apply Forall_cons in Hrest as [_ Hrest'].
           apply IH; [cbn [length] in Hlen; lia | assumption].
        -- apply Hrepl. apply IH; [lia | assumption].
      * destruct (is_low u) eqn:Hl.
        -- apply Hrepl. apply IH; [lia | assumption].
        -- cbn [well_formed]. rewrite Hh, Hl.
           rewrite (proj2 (N.ltb_lt _ _) Hu). cbn [negb andb].
           apply IH; [lia | assumption].
Qed.

End WellFormed.

Section VaultMore.
Import Vault.
Context {crypto : NodeCrypto}.

Ltac run :=
  cbv beta iota delta
    [try_catch mbind M_bind bind randomBytes lift mret M_ret ret throw
     console_error].

(** X1. Whenever [encrypt] returns, the key has 32 bytes and the envelope
    is the hex of the 16 random bytes drawn, 32 digits, then a colon, then
    the hex of what the cipher returned: it splits at the colon into these
    two segments.  The call has used up those 16 random bytes and has
    printed and stored nothing. *)
Theorem encrypt_envelope_shape
    (text envelope : jsstring) (key : Buffer) (w w' : World) :
  encrypt text key w = (Ok envelope, w') ->
  length key = 32%nat
  /\ exists ct,
       cipher_run ALGORITHM key (map (entropy w) (seq 0 16))
         (Utf8.encode text) = Ok ct
       /\ envelope = to_hex (map (entropy w) (seq 0 16)) ++ colon :: to_hex ct
       /\ split envelope colon
          = [to_hex (map (entropy w) (seq 0 16)); to_hex ct]
       /\ length (to_hex (map (entropy w) (seq 0 16))) = 32%nat
       /\ length envelope = (33 + 2 * length ct)%nat
       /\ w' = with_entropy (fun i => entropy w (16 + i)%nat) w.
Proof.
  unfold encrypt.
  destruct (Nat.eq_dec (length key) 32%nat) as [Hkey|Hkey].
  - rewrite (key_length_ok key Hkey). run.
    change IV_LENGTH with 16%nat.
    destruct (cipher_run ALGORITHM key (map (entropy w) (seq 0 16))
                (Utf8.encode text)) as [ct|e]; [|discriminate].
    intros H.
    assert (Henv : to_hex (map (entropy w) (seq 0 16))
                   ++ lit ":" ++ to_hex ct = envelope) by congruence.
    change (lit ":" ++ to_hex ct) with (colon :: to_hex ct) in Henv.
    assert (Hw : with_entropy (fun i => entropy w (16 + i)%nat) w = w')
      by congruence.
    subst envelope w'. clear H.
    split; [exact Hkey|]. exists ct.
    split; [reflexivity|]. split; [reflexivity|].
    split; [apply split_one; apply to_hex_no_colon|].
    split; [now rewrite to_hex_length, length_map, length_seq|].
    split; [|reflexivity].
    rewrite length_app. cbn [length].
    rewrite !to_hex_length, length_map, length_seq. lia.
  - rewrite (key_length_wrong key Hkey). discriminate.
Qed.

(** X2. Whenever [decrypt] returns a text, the key has 32 bytes, the
    envelope splits at the colon into exactly two segments, the first is
    read as 16 bytes of hex, the decipher accepted the second under that
    IV, the text is what its output decodes to as UTF-8, and the world is
    as it was. *)
Theorem decrypt_returns_only_deciphered
    (envelope text : jsstring) (key : Buffer) (w w' : World) :
  decrypt envelope key w = (Ok text, w') ->
  length key = 32%nat
  /\ exists iv_hex ct_hex data,
       split envelope colon = [iv_hex; ct_hex]
       /\ length (from_hex iv_hex) = 16%nat
       /\ decipher_run ALGORITHM key (from_hex iv_hex) (from_hex ct_hex)
          = Ok data
       /\ text = Utf8.decode data
       /\ w' = w.
Proof.
  unfold decrypt.
  destruct (Nat.eq_dec (length key) 32%nat) as [Hkey|Hkey].
  - rewrite (key_length_ok key Hkey).
    destruct (split envelope colon) as [|iv_hex [|ct_hex [|p parts]]];
      run; try (destruct (passed_on format_error); discriminate).
    change IV_LENGTH with 16%nat.
    destruct (Nat.eq_dec (length (from_hex iv_hex)) 16%nat) as [Hiv|Hiv].
    + rewrite Hiv. change (negb (16 =? 16)%nat) with false. cbv iota.
      destruct (decipher_run ALGORITHM key (from_hex iv_hex)
                  (from_hex ct_hex)) as [data|e] eqn:Hdata.
      * intros [= <- <-].
        split; [exact Hkey|]. now exists iv_hex, ct_hex, data.
      * destruct (passed_on e); discriminate.
    + rewrite (proj2 (Nat.eqb_neq _ _) Hiv). cbn [negb].
      destruct (passed_on _); discriminate.
  - rewrite (key_length_wrong key Hkey). discriminate.
Qed.

(** X3. Whenever [decrypt] throws, either the key is not 32 bytes long,
    the error is the key length error and nothing was printed, or the key
    is, one line was printed with the cause, and the error thrown is the
    cause when its message contains one of the two phrases of the handler
    and the error "Decryption process failed. Check key or data
    integrity." otherwise; the cause is [decrypt]'s own format or IV
    length error, or an error of the decipher.  Store and random source
    are as they were. *)
Theorem decrypt_throws_only_known_errors
    (envelope : jsstring) (key : Buffer) (w w' : World) (e : Error) :
  decrypt envelope key w = (Throw e, w') ->
  (length key <> 32%nat /\ e = key_length_error /\ w' = w)
  \/ (length key = 32%nat
      /\ exists cause,
           w' = with_console
                  (console w ++ [("Decryption failed:"%string, cause)]) w
           /\ e = (if passed_on cause then cause
                   else mkError
                     "Decryption process failed. Check key or data integrity.")
           /\ (cause = format_error \/ cause = iv_length_error
               \/ exists iv ct, decipher_run ALGORITHM key iv ct = Throw cause)).
Proof.
  unfold decrypt.
  destruct (Nat.eq_dec (length key) 32%nat) as [Hkey|Hkey].
  - rewrite (key_length_ok key Hkey). intros H. right.
    split; [exact Hkey|]. revert H.
    destruct (split envelope colon) as [|iv_hex [|ct_hex [|p parts]]]; run;
      try (destruct (passed_on format_error) eqn:Hp; cbv beta;
           intros H; exists format_error; rewrite Hp;
           (split; [congruence | split; [congruence | auto]])).
    destruct (negb (length (from_hex iv_hex) =? IV_LENGTH)%nat).
    + destruct (passed_on iv_length_error) eqn:Hp; cbv beta;
        intros H; exists iv_length_error; rewrite Hp;
        (split; [congruence | split; [congruence | auto]]).
    + destruct (decipher_run ALGORITHM key (from_hex iv_hex)
                  (from_hex ct_hex)) as [data|cause] eqn:Hdata;
        [discriminate|].
      destruct (passed_on cause) eqn:Hp; cbv beta;
        intros H; exists cause; rewrite Hp;
        (split; [congruence | split; [congruence | eauto]]).
  - rewrite (key_length_wrong key Hkey). run. intros H. left.
    split; [exact Hkey | split; congruence].
Qed.

Context {laws : NodeCryptoLaws crypto}.

(** X4. For every text of 16-bit code units and every 32-byte key,
    decrypting what [encrypt] returned gives the text with each surrogate
    that is not half of a pair replaced by U+FFFD, a well-formed text; a
    text that is well-formed comes back as it is. *)
Theorem decrypt_encrypt_to_well_formed
    (text : jsstring) (key : Buffer) (w : World) :
  length key = 32%nat -> Forall (fun u => u < 0x10000) text ->
  exists envelope w',
    encrypt text key w = (Ok envelope, w')
    /\ (forall w'',
          decrypt envelope key w'' = (Ok (to_well_formed text), w''))
    /\ Utf8.well_formed (to_well_formed text) = true
    /\ (Utf8.well_formed text = true -> to_well_formed text = text).
Proof.
  intros Hkey Hunits.
  destruct (decrypt_encrypt text key w Hkey) as (envelope & w' & He & Hd).
  exists envelope, w'. split; [exact He|].
  split; [intros w''; now rewrite Hd, decode_encode_to_well_formed|].
  destruct (to_well_formed_upto (length text) text (Nat.le_refl _))
    as [Hsame Hwf].
  split; [now apply Hwf | exact Hsame].
Qed.

(** X5. A key that [generateKeyFromPassword] derives from a password and
    a salt that are not empty is one [encrypt] and [decrypt] take: the
    three calls in a row return, the derivation leaves the world as it
    was, and the text comes back, each surrogate that is not half of a
    pair replaced by U+FFFD. *)
Theorem derived_key_opens_what_it_sealed
    (password salt text : jsstring) (w : World) :
  password <> [] -> salt <> [] -> Forall (fun u => u < 0x10000) text ->
  exists key envelope w',
    generateKeyFromPassword password salt w = (Ok key, w)
    /\ encrypt text key w = (Ok envelope, w')
    /\ decrypt envelope key w' = (Ok (to_well_formed text), w').
Proof.
  intros Hp Hs Hunits.
  pose proof (pbkdf2Sync_length password salt 100000 KEY_LENGTH "sha512")
    as Hkey.
  destruct (decrypt_encrypt text _ w Hkey) as (envelope & w' & He & Hd).
  eexists _, envelope, w'. split; [|split; [exact He|]].
  - unfold generateKeyFromPassword.
    destruct password; [contradiction|]. destruct salt; [contradiction|].
    reflexivity.
  - now rewrite Hd, decode_encode_to_well_formed.
Qed.

End VaultMore.

(** ** Further properties of the profile service *)

Section ProfileMore.
Import ProfileService.
Context {json : Json}.

Ltac run :=
  cbv beta iota delta
    [try_catch mbind M_bind bind randomBytes lift mret M_ret ret throw
     console_error getItem Date_now Math_random_toString36 randomUUID].

(** What [getProfiles] returns is read off the store alone. *)
Lemma getProfiles_value (w : World) :
  fst (getProfiles w)
  = Ok match localStorage w !! PROFILES_STORAGE_KEY with
       | Some text =>
           if falsy text then []
           else match JSON_parse text with
                | Ok (ProfileArray profiles) => profiles
                | _ => []
                end
       | None => []
       end.
Proof.
  unfold getProfiles. run.
  destruct (localStorage w !! PROFILES_STORAGE_KEY) as [text|];
    [|reflexivity].
  destruct (falsy text); [reflexivity|].
  destruct (JSON_parse text) as [[profiles|]|e]; reflexivity.
Qed.

Lemma collection_reads_store (w1 w2 : World) :
  localStorage w1 = localStorage w2 -> collection w1 = collection w2.
Proof.
  intros H. unfold collection. rewrite !getProfiles_value, H. reflexivity.
Qed.

Lemma collection_of_getProfiles (w w' : World)
    (profiles : list ConnectionProfile) :
  getProfiles w = (Ok profiles, w') ->
  collection w = profiles /\ collection w' = profiles.
Proof.
  intros Hget.
  assert (H : collection w = profiles)
    by (unfold collection; now rewrite Hget).
  split; [exact H|]. rewrite <- H. apply collection_reads_store.
  destruct (getProfiles_returns w) as (ps & printed & Hret).
  rewrite Hret in Hget. now inversion Hget.
Qed.

(** What [getProfiles] returns and prints. *)
Lemma getProfiles_cases (w : World) :
  getProfiles w
  = (Ok match localStorage w !! PROFILES_STORAGE_KEY with
        | Some text =>
            if falsy text then []
            else match JSON_parse text with
                 | Ok (ProfileArray profiles) => profiles
                 | _ => []
                 end
        | None => []
        end,
     with_console
       match localStorage w !! PROFILES_STORAGE_KEY with
       | Some text =>
           if falsy text then console w
           else match JSON_parse text with
                | Throw e =>
                    console w
                    ++ [("Error retrieving profiles from localStorage:"
                         %string, e)]
                | Ok _ => console w
                end
       | None => console w
       end w).
Proof.
  unfold getProfiles. run.
  destruct (localStorage w !! PROFILES_STORAGE_KEY) as [text|];
    [|now rewrite with_console_same].
  destruct (falsy text); [now rewrite with_console_same|].
  destruct (JSON_parse text) as [[profiles|]|e];
    now rewrite ?with_console_same.
Qed.

(** The two ways [saveProfiles] ends. *)
Lemma saveProfiles_cases (profiles : list ConnectionProfile) (w : World) :
  saveProfiles profiles w
  = (Ok tt,
     if usage (<[PROFILES_STORAGE_KEY := JSON_stringify profiles]>
                 (localStorage w)) <=? quota w
     then with_localStorage
            (<[PROFILES_STORAGE_KEY := JSON_stringify profiles]>
               (localStorage w)) w
     else with_console
            (console w
             ++ [("Error saving profiles to localStorage:"%string,
                  QuotaExceededError)]) w).
Proof.
  unfold saveProfiles, setItem. run.
  destruct (usage _ <=? quota w); reflexivity.
Qed.

Lemma saveProfiles_keeps_other_keys (profiles : list ConnectionProfile)
    (w : World) :
  other_keys_kept w (snd (saveProfiles profiles w))
  /\ quota (snd (saveProfiles profiles w)) = quota w.
Proof.
  rewrite saveProfiles_cases. cbn [snd].
  destruct (usage _ <=? quota w); split; try reflexivity; intros k Hk;
    cbn [localStorage with_localStorage with_console]; [|reflexivity].
  now rewrite lookup_insert_ne by congruence.
Qed.

Lemma addProfile_keeps_other_keys (profileData : ProfileData) (w : World) :
  other_keys_kept w (snd (addProfile profileData w))
  /\ quota (snd (addProfile profileData w)) = quota w.
Proof.
  destruct (getProfiles_returns w) as (stored & printed & Hget).
  unfold addProfile. run. rewrite Hget.
  destruct (generateId_returns (with_console printed w))
    as (newId & wid & Hid & _ & Hstore & Hquota & _). rewrite Hid.
  destruct (saveProfiles_keeps_other_keys
              (stored ++ [mkProfile newId profileData]) wid) as [Hk Hq].
  destruct (saveProfiles _ wid) as [[[]|e] w1]; cbn [snd] in *;
    (split; [intros k Hne; rewrite (Hk k Hne), Hstore; reflexivity
            | now rewrite Hq, Hquota]).
Qed.

(** X6. [getProfiles] never throws and never writes: it returns a
    collection and changes at most the console.  The collection is empty
    when nothing is stored under the key, when the stored text is empty,
    when it parses to something that is not an array, and when it does not
    parse, in which case alone a line is printed, with the parser's
    error.  Reading again returns the same collection. *)
Theorem getProfiles_degrades_to_empty (w : World) :
  exists profiles printed,
    getProfiles w = (Ok profiles, with_console printed w)
    /\ (localStorage w !! PROFILES_STORAGE_KEY = None ->
        profiles = [] /\ printed = console w)
    /\ (localStorage w !! PROFILES_STORAGE_KEY = Some [] ->
        profiles = [] /\ printed = console w)
    /\ (forall text,
          localStorage w !! PROFILES_STORAGE_KEY = Some text ->
          JSON_parse text = Ok NotArray ->
          profiles = [] /\ printed = console w)
    /\ (forall text e,
          localStorage w !! PROFILES_STORAGE_KEY = Some text ->
          text <> [] -> JSON_parse text = Throw e ->
          profiles = []
          /\ printed
             = console w
               ++ [("Error retrieving profiles from localStorage:"%string,
                    e)])
    /\ fst (getProfiles (with_console printed w)) = Ok profiles.
Proof.
  eexists _, _. split; [apply getProfiles_cases|].
  rewrite getProfiles_value. cbn [localStorage with_console].
  destruct (localStorage w !! PROFILES_STORAGE_KEY) as [text|] eqn:Hget.
  - split; [discriminate|].
    split; [intros [= ->]; now split|].
    split.
    { intros text' [= <-] Hparse. rewrite Hparse.
      destruct (falsy text); now split. }
    split; [|reflexivity].
    intros text' e [= <-] Hne Hparse. rewrite Hparse.
    destruct text; [contradiction|]. now split.
  - split; [now split|]. split; [discriminate|].
    split; [discriminate|]. split; [discriminate | reflexivity].
Qed.

(** X7. No operation of the service touches what is stored under another
    key, nor the quota. *)
Theorem profile_service_keeps_other_keys
    (profiles : list ConnectionProfile) (profileData : ProfileData)
    (updatedProfile : ConnectionProfile) (profileId : jsstring) (w : World) :
  (other_keys_kept w (snd (getProfiles w))
   /\ quota (snd (getProfiles w)) = quota w)
  /\ (other_keys_kept w (snd (saveProfiles profiles w))
      /\ quota (snd (saveProfiles profiles w)) = quota w)
  /\ (other_keys_kept w (snd (addProfile profileData w))
      /\ quota (snd (addProfile profileData w)) = quota w)
  /\ (other_keys_kept w (snd (updateProfile updatedProfile w))
      /\ quota (snd (updateProfile updatedProfile w)) = quota w)
  /\ (other_keys_kept w (snd (deleteProfile profileId w))
      /\ quota (snd (deleteProfile profileId w)) = quota w).
Proof.
  destruct (getProfiles_returns w) as (stored & printed & Hget).
  assert (Hread : other_keys_kept w (with_console printed w)
                  /\ quota (with_console printed w) = quota w)
    by (split; [intros k _|]; reflexivity).
  split; [now rewrite Hget|].
  split; [apply saveProfiles_keeps_other_keys|].
  split; [|split].
  - apply addProfile_keeps_other_keys.
  - unfold updateProfile. run. rewrite Hget.
    destruct (findIndex (id updatedProfile) stored) as [i|];
      [|exact Hread].
    destruct (saveProfiles_keeps_other_keys
                (<[i := updatedProfile]> stored) (with_console printed w))
      as [Hk Hq].
    destruct (saveProfiles _ (with_console printed w)) as [[[]|e] w1];
      cbn [snd] in *; (split; [exact Hk | exact Hq]).
  - unfold deleteProfile. run. rewrite Hget.
    destruct (_ <? _)%nat; [|exact Hread].
    destruct (saveProfiles_keeps_other_keys
                (filter (fun p => id p <> profileId) stored)
                (with_console printed w)) as [Hk Hq].
    destruct (saveProfiles _ (with_console printed w)) as [[[]|e] w1];
      cbn [snd] in *; (split; [exact Hk | exact Hq]).
Qed.

(** The id [generateId] returns is read off the random source and the
    clock alone. *)
Lemma generateId_ignores_console_and_quota (w : World)
    (printed : list (string * Error)) (q : N) :
  fst (generateId (with_console printed (with_quota q w)))
  = fst (generateId w).
Proof. unfold generateId. cbn. destruct (has_randomUUID w); reflexivity. Qed.

(** X8. What [saveProfiles], [addProfile], [updateProfile] and
    [deleteProfile] return does not depend on the room the store has: the
    caller gets the same value whether the write was stored or thrown
    away. *)
Theorem results_ignore_the_quota
    (profiles : list ConnectionProfile) (profileData : ProfileData)
    (updatedProfile : ConnectionProfile) (profileId : jsstring)
    (w : World) (q : N) :
  fst (saveProfiles profiles (with_quota q w))
  = fst (saveProfiles profiles w)
  /\ fst (addProfile profileData (with_quota q w))
     = fst (addProfile profileData w)
  /\ fst (updateProfile updatedProfile (with_quota q w))
     = fst (updateProfile updatedProfile w)
  /\ fst (deleteProfile profileId (with_quota q w))
     = fst (deleteProfile profileId w).
Proof.
  split; [now rewrite !saveProfiles_cases|].
  assert (Hread : forall w0,
            getProfiles w0
            = (Ok (collection w0), snd (getProfiles w0))).
  { intros w0. unfold collection. rewrite getProfiles_cases. reflexivity. }
  assert (Hsame : collection (with_quota q w) = collection w)
    by (now apply collection_reads_store).
  split; [|split].
  - unfold addProfile. run. rewrite (Hread (with_quota q w)), (Hread w).
    rewrite Hsame, !getProfiles_cases. cbn [snd].
    cbn [localStorage console with_quota].
    set (printed := match localStorage w !! PROFILES_STORAGE_KEY with
                    | Some _ => _ | None => _ end).
    pose proof (generateId_ignores_console_and_quota w printed q) as Hq.
    pose proof (generateId_ignores_console_and_quota w printed (quota w))
      as Hw.
    replace (with_quota (quota w) w) with w in Hw by now destruct w.
    destruct (generateId_returns (with_console printed w))
      as (i1 & w1 & H1 & _).
    destruct (generateId_returns (with_console printed (with_quota q w)))
      as (i2 & w2 & H2 & _).
    rewrite H1 in Hw. rewrite H2 in Hq. rewrite H1, H2.
    cbn [fst] in Hq, Hw. rewrite <- Hw in Hq. injection Hq as ->.
    rewrite !saveProfiles_cases. reflexivity.
  - unfold updateProfile. run. rewrite (Hread (with_quota q w)), (Hread w).
    rewrite Hsame.
    destruct (findIndex (id updatedProfile) (collection w)); [|reflexivity].
    rewrite !saveProfiles_cases. reflexivity.
  - unfold deleteProfile. run. rewrite (Hread (with_quota q w)), (Hread w).
    rewrite Hsame.
    destruct (_ <? _)%nat; [|reflexivity].
    rewrite !saveProfiles_cases. reflexivity.
Qed.

Context {laws : JsonLaws json}.

Lemma collection_saved (profiles : list ConnectionProfile) (w : World)
    (s : gmap jsstring jsstring) :
  collection
    (with_localStorage (<[PROFILES_STORAGE_KEY := JSON_stringify profiles]> s)
       w)
  = profiles.
Proof. unfold collection. now rewrite getProfiles_saved. Qed.

(** What is read after [saveProfiles]: the collection given when the
    store had room, the one that was there when it had not. *)
Lemma collection_after_save (profiles : list ConnectionProfile) (w : World) :
  collection (snd (saveProfiles profiles w))
  = if usage (<[PROFILES_STORAGE_KEY := JSON_stringify profiles]>
                (localStorage w)) <=? quota w
    then profiles else collection w.
Proof.
  rewrite saveProfiles_cases. cbn [snd].
  destruct (usage _ <=? quota w); [apply collection_saved|].
  now apply collection_reads_store.
Qed.

(** X9. When the store has room for its text, a collection that is saved
    is the collection that is read afterwards, whatever was stored before;
    nothing is printed. *)
Theorem saveProfiles_then_getProfiles
    (profiles : list ConnectionProfile) (w : World) :
  usage (<[PROFILES_STORAGE_KEY := JSON_stringify profiles]> (localStorage w))
  <= quota w ->
  exists w1,
    saveProfiles profiles w = (Ok tt, w1)
    /\ getProfiles w1 = (Ok profiles, w1)
    /\ console w1 = console w.
Proof.
  intros Hroom. eexists. split; [now apply saveProfiles_stored|].
  split; [apply getProfiles_saved | reflexivity].
Qed.

Lemma getProfiles_as_collection (w : World) :
  exists printed,
    getProfiles w = (Ok (collection w), with_console printed w).
Proof.
  eexists. unfold collection. rewrite getProfiles_cases. reflexivity.
Qed.

Lemma collection_after_save_room (profiles : list ConnectionProfile)
    (w : World) (printed : list (string * Error)) :
  collection (snd (saveProfiles profiles (with_console printed w)))
  = if has_room profiles w then profiles else collection w.
Proof.
  rewrite collection_after_save. unfold has_room.
  cbn [localStorage quota with_console].
  destruct (usage _ <=? quota w); [reflexivity|].
  now apply collection_reads_store.
Qed.

(** What is read after [updateProfile] and after [deleteProfile]. *)
Lemma collection_after_update (updatedProfile : ConnectionProfile)
    (w : World) :
  collection (snd (updateProfile updatedProfile w))
  = match findIndex (id updatedProfile) (collection w) with
    | Some i =>
        if has_room (<[i := updatedProfile]> (collection w)) w
        then <[i := updatedProfile]> (collection w)
        else collection w
    | None => collection w
    end.
Proof.
  destruct (getProfiles_as_collection w) as [printed Hget].
  unfold updateProfile. run. rewrite Hget.
  destruct (findIndex (id updatedProfile) (collection w)) as [i|].
  - rewrite <- collection_after_save_room with (printed := printed).
    now rewrite saveProfiles_cases.
  - now apply collection_reads_store.
Qed.

Lemma collection_after_delete (profileId : jsstring) (w : World) :
  collection (snd (deleteProfile profileId w))
  = if (length (filter (fun p => id p <> profileId) (collection w))
        <? length (collection w))%nat
       && has_room (filter (fun p => id p <> profileId) (collection w)) w
    then filter (fun p => id p <> profileId) (collection w)
    else collection w.
Proof.
  destruct (getProfiles_as_collection w) as [printed Hget].
  unfold deleteProfile. run. rewrite Hget.
  destruct (_ <? _)%nat; cbn [andb].
  - rewrite <- collection_after_save_room with (printed := printed).
    now rewrite saveProfiles_cases.
  - now apply collection_reads_store.
Qed.

Lemma collection_after_add (profileData : ProfileData) (w wid : World)
    (printed : list (string * Error)) (newId : jsstring) :
  generateId (snd (getProfiles w)) = (Ok newId, wid) ->
  addProfile profileData w
  = (Ok (mkProfile newId profileData),
     snd (saveProfiles (collection w ++ [mkProfile newId profileData]) wid))
  /\ collection (snd (addProfile profileData w))
     = if has_room (collection w ++ [mkProfile newId profileData]) w
       then collection w ++ [mkProfile newId profileData]
       else collection w.
Proof.
  destruct (getProfiles_as_collection w) as [printed' Hget].
  rewrite Hget. cbn [snd]. intros Hid.
  destruct (generateId_returns (with_console printed' w))
    as (i & w' & Hret & _ & Hstore & Hquota & _).
  rewrite Hret in Hid. injection Hid as -> ->.
  assert (Hadd : addProfile profileData w
                 = (Ok (mkProfile newId profileData),
                    snd (saveProfiles
                           (collection w ++ [mkProfile newId profileData])
                           wid))).
  { unfold addProfile. run. rewrite Hget, Hret.
    now rewrite saveProfiles_cases. }
  split; [exact Hadd|]. rewrite Hadd. cbn [snd].
  rewrite collection_after_save. unfold has_room.
  cbn [localStorage quota with_console] in Hstore, Hquota.
  rewrite Hstore, Hquota.
  destruct (usage _ <=? quota w); [reflexivity|].
  apply collection_reads_store. exact Hstore.
Qed.

Lemma findIndex_found (profileId : jsstring)
    (profiles : list ConnectionProfile) (i : nat) :
  findIndex profileId profiles = Some i ->
  exists p, profiles !! i = Some p /\ id p = profileId.
Proof.
  unfold findIndex. intros H.
  destruct (list_find _ profiles) as [[j p]|] eqn:Hfind; [|discriminate].
  injection H as ->. apply list_find_Some in Hfind as (Hp & Hid & _).
  eauto.
Qed.

Lemma ids_after_insert (profiles : list ConnectionProfile) (i : nat)
    (p updatedProfile : ConnectionProfile) :
  profiles !! i = Some p -> id p = id updatedProfile ->
  map id (<[i := updatedProfile]> profiles) = map id profiles.
Proof.
  intros Hp Hid. change (map id) with (fmap (M := list) id).
  rewrite list_fmap_insert. apply list_insert_id.
  now rewrite list_lookup_fmap, Hp, <- Hid.
Qed.

Lemma ids_unique_after_filter (profileId : jsstring)
    (profiles : list ConnectionProfile) :
  NoDup (map id profiles) ->
  NoDup (map id (filter (fun p => id p <> profileId) profiles)).
Proof.
  induction profiles as [|p profiles IH]; [intros; constructor|].
  cbn [map]. intros [Hnot Hrest]%NoDup_cons.
  rewrite filter_cons. destruct (decide (id p <> profileId));
    [|now apply IH].
  cbn [map]. apply NoDup_cons. split; [|now apply IH].
  intros Hin. apply Hnot.
  apply list_elem_of_In, in_map_iff in Hin as (q & Hq & Hin).
  apply list_elem_of_In, in_map_iff. exists q. split; [exact Hq|].
  apply list_elem_of_In. apply list_elem_of_In in Hin.
  now apply list_elem_of_filter in Hin as [_ Hin].
Qed.

Lemma ids_after_update (updatedProfile : ConnectionProfile) (w : World) :
  map id (collection (snd (updateProfile updatedProfile w)))
  = map id (collection w).
Proof.
  rewrite collection_after_update.
  destruct (findIndex (id updatedProfile) (collection w)) as [i|] eqn:Hi;
    [|reflexivity].
  destruct (has_room _ w); [|reflexivity].
  apply findIndex_found in Hi as (p & Hp & Hid).
  now apply (ids_after_insert _ i p).
Qed.

Lemma filter_shorter (profileId : jsstring)
    (profiles : list ConnectionProfile) :
  profileId ∈ map id profiles ->
  (length (filter (fun p => id p <> profileId) profiles)
   < length profiles)%nat.
Proof.
  intros (p & Hid & Hin)%list_elem_of_fmap.
  apply (length_filter_lt _ _ p Hin). intros Hne. now apply Hne.
Qed.

Lemma deleteProfile_found (profileId : jsstring) (w : World) :
  profileId ∈ map id (collection w) ->
  has_room (filter (fun p => id p <> profileId) (collection w)) w = true ->
  fst (deleteProfile profileId w) = Ok true
  /\ collection (snd (deleteProfile profileId w))
     = filter (fun p => id p <> profileId) (collection w).
Proof.
  intros Hin Hroom. pose proof (filter_shorter _ _ Hin) as Hshorter.
  split.
  - destruct (getProfiles_as_collection w) as [printed Hget].
    unfold deleteProfile. run. rewrite Hget.
    rewrite (proj2 (Nat.ltb_lt _ _) Hshorter).
    now destruct (saveProfiles_returns
                    (filter (fun p => id p <> profileId) (collection w))
                    (with_console printed w)) as [w1 ->].
  - rewrite collection_after_delete, Hroom.
    now rewrite (proj2 (Nat.ltb_lt _ _) Hshorter).
Qed.

(** X10. [updateProfile] never changes the ids that are stored nor their
    order, whether or not it finds the profile and whether or not the
    write is stored; so it keeps the number of records, and it returns
    [true] exactly when some stored record has the id. *)
Theorem updateProfile_keeps_ids
    (updatedProfile : ConnectionProfile) (w : World) :
  map id (collection (snd (updateProfile updatedProfile w)))
  = map id (collection w)
  /\ length (collection (snd (updateProfile updatedProfile w)))
     = length (collection w)
  /\ fst (updateProfile updatedProfile w)
     = Ok (bool_decide (id updatedProfile ∈ map id (collection w))).
Proof.
  pose proof (ids_after_update updatedProfile w) as Hids.
  split; [exact Hids|]. split.
  { rewrite <- (length_map id), Hids. apply length_map. }
  destruct (getProfiles_as_collection w) as [printed Hget].
  unfold updateProfile. run. rewrite Hget.
  destruct (findIndex (id updatedProfile) (collection w)) as [i|] eqn:Hi.
  - destruct (saveProfiles_returns
                (<[i := updatedProfile]> (collection w))
                (with_console printed w)) as [w1 ->].
    cbn [fst]. f_equal. symmetry. apply bool_decide_eq_true.
    apply findIndex_found in Hi as (p & Hp & Hid).
    rewrite <- Hid. apply (list_elem_of_fmap_2 id).
    eapply list_elem_of_lookup_2, Hp.
  - cbn [fst]. f_equal. symmetry. apply bool_decide_eq_false.
    unfold findIndex in Hi.
    destruct (list_find _ (collection w)) as [[j p]|] eqn:Hfind;
      [discriminate|].
    apply list_find_None in Hfind.
    intros (p & Hid & Hin)%list_elem_of_fmap.
    rewrite Forall_forall in Hfind. apply (Hfind p Hin). now symmetry.
Qed.

(** X11. When some stored record has the id and the store has room for
    the shorter collection, [deleteProfile] returns [true], and the
    collection read afterwards is the one before without every record of
    that id, the others in their order: no record of that id is left,
    however many there were. *)
Theorem deleteProfile_removes_every_match
    (profileId : jsstring) (w : World) :
  profileId ∈ map id (collection w) ->
  has_room (filter (fun p => id p <> profileId) (collection w)) w = true ->
  fst (deleteProfile profileId w) = Ok true
  /\ collection (snd (deleteProfile profileId w))
     = filter (fun p => id p <> profileId) (collection w)
  /\ (profileId ∉ map id (collection (snd (deleteProfile profileId w))))
  /\ (length (collection (snd (deleteProfile profileId w)))
      < length (collection w))%nat.
Proof.
  intros Hin Hroom.
  destruct (deleteProfile_found profileId w Hin Hroom) as [Htrue Hafter].
  split; [exact Htrue|]. split; [exact Hafter|]. rewrite Hafter. split.
  - intros (p & Hid & Hp)%list_elem_of_fmap.
    apply list_elem_of_filter in Hp as [Hne _]. now apply Hne.
  - now apply filter_shorter.
Qed.

(** X12. Ids that are unique in the store stay unique: under
    [updateProfile] and [deleteProfile] always, and under [addProfile]
    when the id that [generateId] returns is not stored yet. *)
Theorem stored_ids_stay_unique
    (updatedProfile : ConnectionProfile) (profileId : jsstring)
    (profileData : ProfileData) (w : World) :
  NoDup (map id (collection w)) ->
  NoDup (map id (collection (snd (updateProfile updatedProfile w))))
  /\ NoDup (map id (collection (snd (deleteProfile profileId w))))
  /\ (forall newId wid,
        generateId (snd (getProfiles w)) = (Ok newId, wid) ->
        newId ∉ map id (collection w) ->
        NoDup (map id (collection (snd (addProfile profileData w))))).
Proof.
  intros Hunique. split; [|split].
  - now rewrite ids_after_update.
  - rewrite collection_after_delete.
    destruct (_ && _); [now apply ids_unique_after_filter | exact Hunique].
  - intros newId wid Hid Hfresh.
    destruct (collection_after_add profileData w wid [] newId Hid)
      as [_ ->].
    destruct (has_room _ w); [|exact Hunique].
    rewrite map_app. cbn [map id].
    apply NoDup_app. split; [exact Hunique|].
    split; [|apply NoDup_singleton].
    intros x Hx ->%list_elem_of_singleton. now apply Hfresh.
Qed.

(** X13. Adding a profile and then deleting the id that was returned
    gives back the collection that was stored, when that id was not
    stored before and the store has room for both texts. *)
Theorem addProfile_then_deleteProfile
    (profileData : ProfileData) (w wid : World) (newId : jsstring) :
  generateId (snd (getProfiles w)) = (Ok newId, wid) ->
  newId ∉ map id (collection w) ->
  has_room (collection w ++ [mkProfile newId profileData]) w = true ->
  has_room (collection w) w = true ->
  fst (addProfile profileData w) = Ok (mkProfile newId profileData)
  /\ fst (deleteProfile newId (snd (addProfile profileData w))) = Ok true
  /\ collection
       (snd (deleteProfile newId (snd (addProfile profileData w))))
     = collection w.
Proof.
  intros Hid Hfresh Hroom1 Hroom2.
  destruct (collection_after_add profileData w wid [] newId Hid)
    as [Hadd Hafter].
  rewrite Hroom1 in Hafter.
  set (w1 := snd (addProfile profileData w)) in *.
  assert (Hkept : filter (fun p => id p <> newId) (collection w1)
                  = collection w).
  { rewrite Hafter, filter_app, filter_cons.
    rewrite decide_False by (intros Hne; now apply Hne).
    rewrite filter_nil, app_nil_r. apply filter_keeps_all.
    apply Forall_forall. intros p Hp Heq. apply Hfresh.
    rewrite <- Heq. now apply list_elem_of_fmap_2. }
  assert (Hroom : has_room (collection w) w1 = true).
  { destruct (addProfile_keeps_other_keys profileData w)
      as [Hstore Hquota].
    unfold has_room in *. fold w1 in Hstore, Hquota.
    rewrite Hquota. rewrite <- Hroom2. f_equal. f_equal.
    apply map_eq. intros k.
    destruct (decide (k = PROFILES_STORAGE_KEY)) as [->|Hk].
    - now rewrite !lookup_insert_eq.
    - rewrite !lookup_insert_ne by congruence. now apply Hstore. }
  split; [now rewrite Hadd|].
  assert (Hin : newId ∈ map id (collection w1)).
  { rewrite Hafter, map_app. apply elem_of_app. right. now left. }
  rewrite <- Hkept in Hroom.
  pose proof (deleteProfile_found newId w1 Hin Hroom) as [Htrue Hcoll].
  split; [exact Htrue|]. now rewrite Hcoll, Hkept.
Qed.

End ProfileMore.

(** ** Further properties of the SSH service *)

Section SshMore.
Import SshService.
Context {ssh2 : Ssh2}.

(** The handlers, run over any events from any state: a promise that is
    settled stays as it is, a pending one is settled by the first [error]
    or [close]. *)
Lemma handle_first_settling (params : SSHConnectionParams)
    (events : list ClientEvent) (r : Run) :
  promise (fold_left (handle params) events r)
  = match promise r with
    | Pending => first_settling events
    | settled => settled
    end.
Proof.
  revert r. induction events as [|[|err|] events IH]; intros r;
    cbn [fold_left first_settling].
  - now destruct (promise r).
  - rewrite IH. reflexivity.
  - rewrite IH. cbn [handle settle print promise].
    now destruct (promise r).
  - rewrite IH. cbn [handle settle print promise].
    now destruct (promise r).
Qed.

Lemma handle_end_calls (params : SSHConnectionParams)
    (events : list ClientEvent) (r : Run) :
  end_calls (fold_left (handle params) events r)
  = (end_calls r + length (List.filter is_ready events))%nat.
Proof.
  revert r. induction events as [|[|err|] events IH]; intros r;
    cbn [fold_left List.filter is_ready length]; rewrite ?IH;
    cbn [handle call_end settle print end_calls]; lia.
Qed.

Lemma handle_printed (params : SSHConnectionParams)
    (events : list ClientEvent) (r : Run) :
  length (printed (fold_left (handle params) events r))
  = (length (printed r) + length events)%nat.
Proof.
  revert r. induction events as [|[|err|] events IH]; intros r;
    cbn [fold_left length]; rewrite ?IH;
    cbn [handle call_end settle print printed]; rewrite ?length_app;
    cbn [length]; lia.
Qed.

(** X14. The promise [connect] returns is settled once, by what comes
    first: rejected with the error the client's [connect] threw;
    otherwise rejected with the first [error] event when no [close] came
    before it, resolved by the first [close] when no [error] came before
    it, whether or not a [ready] was seen, and pending for ever when the
    client emits neither.  Events after the first of the two change
    nothing. *)
Theorem connect_settles_on_first_event (params : SSHConnectionParams) :
  promise (connect params)
  = match Client_connect (config_of params) with
    | Throws err => Rejected err
    | Emits events => first_settling events
    end
  /\ forall events more,
       Client_connect (config_of params) = Emits (events ++ more) ->
       first_settling events = Pending
       \/ promise (connect params) = first_settling events.
Proof.
  unfold connect, executor.
  destruct (Client_connect (config_of params)) as [err|events].
  - split; [reflexivity|]. discriminate.
  - split; [now rewrite handle_first_settling|].
    intros before more [= ->].
    rewrite fold_left_app, !handle_first_settling.
    cbn [promise call_connect].
    destruct (first_settling before); [now left | now right ..].
Qed.

(** X15. [connect] ends the connection once for every [ready] event the
    client emits, and at no other time: not when the client's [connect]
    throws, not on an [error], not on a [close]; and it does so also
    after the promise was settled.  It prints one line for every event,
    and one line when the client's [connect] throws. *)
Theorem connect_ends_once_per_ready (params : SSHConnectionParams) :
  match Client_connect (config_of params) with
  | Throws err =>
      end_calls (connect params) = 0%nat
      /\ length (printed (connect params)) = 1%nat
  | Emits events =>
      end_calls (connect params) = length (List.filter is_ready events)
      /\ length (printed (connect params)) = length events
  end.
Proof.
  unfold connect, executor.
  destruct (Client_connect (config_of params)) as [err|events].
  - now split.
  - now rewrite handle_end_calls, handle_printed.
Qed.

End SshMore.

(** ** Failures and the caller *)

Section Failures.
Import Vault ProfileService SshService.
Context {crypto : NodeCrypto} {json : Json} {ssh2 : Ssh2}.

(** What was printed stays printed, and every [error] event is
    printed. *)
Lemma handle_keeps_printed (params : SSHConnectionParams)
    (events : list ClientEvent) (r : Run) (line : jsstring) :
  In line (printed r) ->
  In line (printed (fold_left (handle params) events r)).
Proof.
  revert r. induction events as [|event events IH]; intros r Hin;
    [exact Hin|].
  cbn [fold_left]. apply IH.
  destruct event; cbn [handle call_end settle print printed];
    apply in_or_app; now left.
Qed.

Lemma handle_prints_errors (params : SSHConnectionParams)
    (events : list ClientEvent) (r : Run) (err : Error) :
  In (error err) events ->
  In (lit ("SSH connection error: " ++ message err))
    (printed (fold_left (handle params) events r)).
Proof.
  revert r. induction events as [|event events IH]; intros r Hin;
    [contradiction|].
  cbn [fold_left]. destruct Hin as [-> | Hin]; [|now apply IH].
  apply handle_keeps_printed. cbn [handle settle print printed].
  apply in_or_app. right. now left.
Qed.

(** A [close] that no [error] precedes resolves the promise, and the
    [error] events that follow it are printed and nothing more. *)
Lemma connect_resolves_on_close (params : SSHConnectionParams)
    (readies rest : list ClientEvent) :
  Client_connect (config_of params) = Emits (readies ++ close :: rest) ->
  Forall (eq ready) readies ->
  promise (connect params) = Resolved
  /\ forall err,
       In (error err) rest ->
       In (lit ("SSH connection error: " ++ message err))
         (printed (connect params)).
Proof.
  intros Hcall Hready. unfold connect, executor. rewrite Hcall. split.
  - rewrite handle_first_settling. cbn [promise call_connect].
    clear Hcall. induction Hready as [|event readies <- _ IH];
      [reflexivity | exact IH].
  - intros err Hin. apply handle_prints_errors.
    apply in_or_app. right. now right.
Qed.

(** C9, as amended. A failure reaches the direct caller, except a failure
    of the store, on reading or on writing, and an error of the SSH client
    that comes after the promise was resolved.  The vault throws: on an
    empty password or salt, on a key of the wrong length, on an envelope
    of the wrong form, and when the cipher or the decipher fails.
    [connect] rejects the promise with the error the client threw, and
    with the first [error] event when no [close] came before it; after a
    [close] that no [error] precedes the promise is resolved, and a later
    [error] is printed and nothing more.  The profile service always
    returns: [saveProfiles] prints the error of a [setItem] that throws
    and returns normally, with the store as it was, [getProfiles] prints
    the error of a text that does not parse and returns the empty
    collection, and [addProfile], [updateProfile] and [deleteProfile]
    return normally as well. *)
Theorem failures_reach_the_caller_except_storage
    (password salt text envelope profileId : jsstring) (key : Buffer)
    (params : SSHConnectionParams) (profiles : list ConnectionProfile)
    (profileData : ProfileData) (updatedProfile : ConnectionProfile)
    (w : World) :
  (* the vault *)
  (password = [] \/ salt = [] ->
   throws (generateKeyFromPassword password salt) w
     (mkError "Password and salt are required to generate a key."))
  /\ (length key <> 32%nat ->
      throws (encrypt text key) w key_length_error
      /\ throws (decrypt envelope key) w key_length_error)
  /\ (length key = 32%nat ->
      (forall e,
         cipher_run ALGORITHM key (map (entropy w) (seq 0 IV_LENGTH))
           (Utf8.encode text) = Throw e ->
         throws (encrypt text key) w (mkError "Encryption process failed."))
      /\ (length (split envelope colon) <> 2%nat ->
          throws (decrypt envelope key) w format_error)
      /\ (forall iv_hex ct_hex,
            split envelope colon = [iv_hex; ct_hex] ->
            length (from_hex iv_hex) <> 16%nat ->
            throws (decrypt envelope key) w iv_length_error)
      /\ (forall iv_hex ct_hex e,
            split envelope colon = [iv_hex; ct_hex] ->
            length (from_hex iv_hex) = 16%nat ->
            decipher_run ALGORITHM key (from_hex iv_hex) (from_hex ct_hex)
            = Throw e ->
            throws (decrypt envelope key) w
              (if passed_on e then e
               else mkError
                 "Decryption process failed. Check key or data integrity.")))
  (* the SSH service *)
  /\ (forall err,
        Client_connect (config_of params) = Throws err ->
        promise (connect params) = Rejected err)
  /\ (forall readies err rest,
        Client_connect (config_of params)
        = Emits (readies ++ error err :: rest) ->
        Forall (eq ready) readies ->
        promise (connect params) = Rejected err)
  /\ (forall readies rest,
        Client_connect (config_of params)
        = Emits (readies ++ close :: rest) ->
        Forall (eq ready) readies ->
        promise (connect params) = Resolved
        /\ forall err,
             In (error err) rest ->
             In (lit ("SSH connection error: " ++ message err))
               (printed (connect params)))
  (* the profile service *)
  /\ returns (saveProfiles profiles) w
  /\ returns getProfiles w
  /\ returns (addProfile profileData) w
  /\ returns (updateProfile updatedProfile) w
  /\ returns (deleteProfile profileId) w
  /\ (forall e,
        throws (setItem PROFILES_STORAGE_KEY (JSON_stringify profiles)) w e ->
        saveProfiles profiles w
        = (Ok tt,
           with_console
             (console w
              ++ [("Error saving profiles to localStorage:"%string, e)]) w))
  /\ (forall stored e,
        localStorage w !! PROFILES_STORAGE_KEY = Some stored ->
        falsy stored = false -> JSON_parse stored = Throw e ->
        getProfiles w
        = (Ok [],
           with_console
             (console w
              ++ [("Error retrieving profiles from localStorage:"%string,
                   e)]) w)).
Proof.
  split; [apply generateKeyFromPassword_throws_empty|].
  split; [apply vault_throws_wrong_key|].
  split.
  { intros Hkey.
    split; [intros e; now apply encrypt_throws_cipher_failure|].
    split; [apply (decrypt_throws_bad_form envelope key w Hkey)|].
    split; [apply (decrypt_throws_bad_form envelope key w Hkey)|].
    intros iv_hex ct_hex e. now apply decrypt_throws_decipher_failure. }
  split.
  { intros err Hcall. unfold connect, executor. now rewrite Hcall. }
  split; [intros readies err rest; apply connect_rejects_first_error|].
  split; [intros readies rest; apply connect_resolves_on_close|].
  destruct (profile_operations_return profiles profileData updatedProfile
              profileId w) as (H1 & H2 & H3 & H4 & H5).
  repeat (split; [assumption|]).
  split; [apply saveProfiles_unwritable | apply getProfiles_unreadable].
Qed.

End Failures.

(** ** The further properties on the stand-ins *)

Section MoreExamples.
Import Vault ProfileService SshService StandIn.
#[local] Existing Instance StandIn.crypto.
#[local] Existing Instance StandIn.json.

(** X1 on the text "secret". *)
Lemma encrypt_envelope_shape_witness :
  encrypt (lit "secret") key32 fresh = (Ok sealed, drawn)
  /\ length key32 = 32%nat
  /\ exists ct,
       cipher_run ALGORITHM key32 (map (entropy fresh) (seq 0 16))
         (Utf8.encode (lit "secret")) = Ok ct
       /\ sealed = to_hex (map (entropy fresh) (seq 0 16)) ++ colon :: to_hex ct
       /\ split sealed colon
          = [to_hex (map (entropy fresh) (seq 0 16)); to_hex ct]
       /\ length (to_hex (map (entropy fresh) (seq 0 16))) = 32%nat
       /\ length sealed = (33 + 2 * length ct)%nat
       /\ drawn = with_entropy (fun i => entropy fresh (16 + i)%nat) fresh.
Proof.
  assert (H : encrypt (lit "secret") key32 fresh = (Ok sealed, drawn))
    by (vm_compute; reflexivity).
  split; [exact H|].
  exact (encrypt_envelope_shape (lit "secret") sealed key32 fresh drawn H).
Defined.

(** X2 on the envelope of "secret". *)
Lemma decrypt_returns_only_deciphered_witness :
  decrypt sealed key32 fresh = (Ok (lit "secret"), fresh)
  /\ length key32 = 32%nat
  /\ exists iv_hex ct_hex data,
       split sealed colon = [iv_hex; ct_hex]
       /\ length (from_hex iv_hex) = 16%nat
       /\ decipher_run ALGORITHM key32 (from_hex iv_hex) (from_hex ct_hex)
          = Ok data
       /\ lit "secret" = Utf8.decode data
       /\ fresh = fresh.
Proof.
  assert (H : decrypt sealed key32 fresh = (Ok (lit "secret"), fresh))
    by (vm_compute; reflexivity).
  split; [exact H|].
  exact (decrypt_returns_only_deciphered sealed (lit "secret") key32 fresh
           fresh H).
Defined.

(** X4 on a text with a surrogate on its own between two letters. *)
Lemma decrypt_encrypt_to_well_formed_witness :
  to_well_formed [0x68; 0xD800; 0x69] = [0x68; 0xFFFD; 0x69]
  /\ exists envelope w',
       encrypt [0x68; 0xD800; 0x69] key32 fresh = (Ok envelope, w')
       /\ (forall w'',
             decrypt envelope key32 w''
             = (Ok (to_well_formed [0x68; 0xD800; 0x69]), w''))
       /\ Utf8.well_formed (to_well_formed [0x68; 0xD800; 0x69]) = true
       /\ (Utf8.well_formed [0x68; 0xD800; 0x69] = true ->
           to_well_formed [0x68; 0xD800; 0x69] = [0x68; 0xD800; 0x69]).
Proof.
  split; [reflexivity|].
  apply (decrypt_encrypt_to_well_formed (laws := crypto_laws)
           [0x68; 0xD800; 0x69] key32 fresh); [reflexivity|].
  repeat constructor.
Defined.

(** X3 on an envelope without a colon. *)
Lemma decrypt_throws_only_known_errors_witness :
  decrypt (lit "0011") key32 fresh
  = (Throw format_error,
     with_console [("Decryption failed:"%string, format_error)] fresh)
  /\ ((length key32 <> 32%nat /\ format_error = key_length_error
       /\ with_console [("Decryption failed:"%string, format_error)] fresh
          = fresh)
      \/ (length key32 = 32%nat
          /\ exists cause,
               with_console [("Decryption failed:"%string, format_error)]
                 fresh
               = with_console
                   (console fresh ++ [("Decryption failed:"%string, cause)])
                   fresh
               /\ format_error
                  = (if passed_on cause then cause
                     else mkError
                       "Decryption process failed. Check key or data integrity.")
               /\ (cause = format_error \/ cause = iv_length_error
                   \/ exists iv ct,
                        decipher_run ALGORITHM key32 iv ct = Throw cause))).
Proof.
  assert (H : decrypt (lit "0011") key32 fresh
              = (Throw format_error,
                 with_console [("Decryption failed:"%string, format_error)]
                   fresh))
    by (vm_compute; reflexivity).
  split; [exact H|].
  exact (decrypt_throws_only_known_errors (lit "0011") key32 fresh
           (with_console [("Decryption failed:"%string, format_error)] fresh)
           format_error H).
Defined.

(** X5 on the password "hunter2", the salt "a1b2" and the text
    "secret". *)
Lemma derived_key_opens_what_it_sealed_witness :
  exists key envelope w',
    generateKeyFromPassword (lit "hunter2") (lit "a1b2") fresh
    = (Ok key, fresh)
    /\ encrypt (lit "secret") key fresh = (Ok envelope, w')
    /\ decrypt envelope key w' = (Ok (to_well_formed (lit "secret")), w').
Proof.
  apply (derived_key_opens_what_it_sealed (laws := crypto_laws)
           (lit "hunter2") (lit "a1b2") (lit "secret") fresh);
    [discriminate | discriminate |].
  repeat constructor.
Defined.

(** X9 on one profile and the empty store. *)
Lemma saveProfiles_then_getProfiles_witness :
  exists w1,
    saveProfiles [mkProfile web_id web] fresh = (Ok tt, w1)
    /\ getProfiles w1 = (Ok [mkProfile web_id web], w1)
    /\ console w1 = console fresh.
Proof.
  apply (saveProfiles_then_getProfiles (laws := json_laws)
           [mkProfile web_id web] fresh).
  vm_compute. discriminate.
Defined.

(** X11 on a store that holds two records with one id: both go. *)
Lemma deleteProfile_removes_every_match_witness :
  collection (holding twins) = twins
  /\ fst (deleteProfile web_id (holding twins)) = Ok true
  /\ collection (snd (deleteProfile web_id (holding twins)))
     = filter (fun p => id p <> web_id) (collection (holding twins))
  /\ (web_id ∉ map id (collection (snd (deleteProfile web_id (holding twins)))))
  /\ (length (collection (snd (deleteProfile web_id (holding twins))))
      < length (collection (holding twins)))%nat.
Proof.
  split; [vm_compute; reflexivity|].
  apply (deleteProfile_removes_every_match (laws := json_laws) web_id
           (holding twins)).
  - vm_compute. left.
  - vm_compute. reflexivity.
Defined.

(** X10 on a store that holds one profile, renamed. *)
Lemma updateProfile_keeps_ids_witness :
  map id
    (collection
       (snd (updateProfile (mkProfile web_id web_renamed)
               (holding [mkProfile web_id web]))))
  = map id (collection (holding [mkProfile web_id web]))
  /\ length
       (collection
          (snd (updateProfile (mkProfile web_id web_renamed)
                  (holding [mkProfile web_id web]))))
     = length (collection (holding [mkProfile web_id web]))
  /\ fst (updateProfile (mkProfile web_id web_renamed)
            (holding [mkProfile web_id web]))
     = Ok (bool_decide
             (id (mkProfile web_id web_renamed)
              ∈ map id (collection (holding [mkProfile web_id web])))).
Proof.
  exact (updateProfile_keeps_ids (laws := json_laws)
           (mkProfile web_id web_renamed) (holding [mkProfile web_id web])).
Defined.

(** X12 on a store that holds three records under three ids: the ids
    are distinct before, after an update, after a deletion, and after an
    addition, whose generated id is a fourth one. *)
Lemma stored_ids_stay_unique_witness :
  map id (collection (holding [first; second; third]))
  = [lit "first"; lit "second"; lit "third"]
  /\ NoDup (map id (collection (holding [first; second; third])))
  /\ map id
       (collection
          (snd (updateProfile (mkProfile (lit "second") web)
                  (holding [first; second; third]))))
     = [lit "first"; lit "second"; lit "third"]
  /\ NoDup
       (map id
          (collection
             (snd (updateProfile (mkProfile (lit "second") web)
                     (holding [first; second; third])))))
  /\ map id
       (collection
          (snd (deleteProfile (lit "first")
                  (holding [first; second; third]))))
     = [lit "second"; lit "third"]
  /\ NoDup
       (map id
          (collection
             (snd (deleteProfile (lit "first")
                     (holding [first; second; third])))))
  /\ map id
       (collection (snd (addProfile web (holding [first; second; third]))))
     = [lit "first"; lit "second"; lit "third"; web_id]
  /\ NoDup
       (map id
          (collection
             (snd (addProfile web (holding [first; second; third]))))).
Proof.
  assert (H : NoDup (map id (collection (holding [first; second; third])))).
  { apply (bool_decide_unpack _). vm_compute. exact I. }
  destruct (stored_ids_stay_unique (laws := json_laws)
              (mkProfile (lit "second") web) (lit "first") web
              (holding [first; second; third]) H)
    as (Hupdate & Hdelete & Hadd).
  split; [vm_compute; reflexivity|]. split; [exact H|].
  split; [vm_compute; reflexivity|]. split; [exact Hupdate|].
  split; [vm_compute; reflexivity|]. split; [exact Hdelete|].
  split; [vm_compute; reflexivity|].
  apply (Hadd web_id
           (snd (generateId
                   (snd (getProfiles (holding [first; second; third])))))).
  - vm_compute. reflexivity.
  - apply (bool_decide_unpack _). vm_compute. exact I.
Defined.

(** X13 on a store that holds one profile: a second is added and
    deleted. *)
Lemma addProfile_then_deleteProfile_witness :
  collection (holding [first]) = [first]
  /\ fst (addProfile web (holding [first])) = Ok (mkProfile web_id web)
  /\ fst (deleteProfile web_id (snd (addProfile web (holding [first]))))
     = Ok true
  /\ collection
       (snd (deleteProfile web_id (snd (addProfile web (holding [first])))))
     = collection (holding [first]).
Proof.
  split; [vm_compute; reflexivity|].
  apply (addProfile_then_deleteProfile (laws := json_laws) web
           (holding [first])
           (snd (generateId (snd (getProfiles (holding [first])))))
           web_id).
  - vm_compute. reflexivity.
  - vm_compute. intros H. inversion H as [|? ? ? H']. inversion H'.
  - vm_compute. reflexivity.
  - vm_compute. reflexivity.
Defined.

(** C9, as amended, on the stand-ins: each failure of the vault, a client
    that throws, one that reports an error first and one that reports it
    after the close, a store without room and a store with a text that
    does not parse. *)
Lemma failures_reach_the_caller_except_storage_witness :
  (* the vault *)
  throws (generateKeyFromPassword [] (lit "a1b2")) full
    (mkError "Password and salt are required to generate a key.")
  /\ throws (encrypt (lit "secret") [x00; x01]) full key_length_error
  /\ throws (decrypt (lit "0011") [x00; x01]) full key_length_error
  /\ throws (encrypt (crypto := unsupported) (lit "secret") key32) fresh
       (mkError "Encryption process failed.")
  /\ throws (decrypt (lit "0011") key32) fresh format_error
  /\ throws (decrypt (lit "0011:22") key32)
       (cramped [mkProfile web_id web]) iv_length_error
  /\ throws (decrypt (lit "000102030405060708090a0b0c0d0e0f:00") key32)
       garbled
       (mkError "Decryption process failed. Check key or data integrity.")
  (* the SSH service *)
  /\ promise (connect (ssh2 := checking) no_host)
     = Rejected (mkError "Invalid host")
  /\ promise (connect (ssh2 := checking) (params web))
     = Rejected (mkError "connect ECONNREFUSED")
  /\ promise (connect (ssh2 := late_error) (params web)) = Resolved
  /\ In (lit "SSH connection error: read ECONNRESET")
       (printed (connect (ssh2 := late_error) (params web)))
  (* the profile service *)
  /\ returns (saveProfiles [mkProfile web_id web]) full
  /\ returns getProfiles garbled
  /\ returns (addProfile web) full
  /\ returns (updateProfile (mkProfile web_id web_renamed))
       (cramped [mkProfile web_id web])
  /\ returns (deleteProfile web_id) full
  /\ saveProfiles [mkProfile web_id web] full
     = (Ok tt,
        with_console
          [("Error saving profiles to localStorage:"%string,
            QuotaExceededError)] full)
  /\ getProfiles garbled
     = (Ok [],
        with_console
          [("Error retrieving profiles from localStorage:"%string,
            mkError "Unexpected token")] garbled).
Proof.
  pose proof (failures_reach_the_caller_except_storage
                (ssh2 := checking) [] (lit "a1b2") (lit "secret")
                (lit "0011") web_id [x00; x01] no_host
                [mkProfile web_id web] web (mkProfile web_id web_renamed)
                full)
    as (Hgen & Hkey & _ & Hthrown & _ & _ & Hsave & _ & Hadd & _ & Hdel
        & Hswallow & _).
  pose proof (failures_reach_the_caller_except_storage
                (crypto := unsupported) (ssh2 := checking) [] []
                (lit "secret") (lit "0011") web_id key32 (params web)
                [mkProfile web_id web] web (mkProfile web_id web_renamed)
                fresh)
    as (_ & _ & Hcipher & _ & Hfirst & _).
  pose proof (failures_reach_the_caller_except_storage
                (ssh2 := late_error) [] [] (lit "secret") (lit "0011")
                web_id key32 (params web) [mkProfile web_id web] web
                (mkProfile web_id web_renamed) fresh)
    as (_ & _ & Hform & _ & _ & Hlate & _).
  pose proof (failures_reach_the_caller_except_storage
                (ssh2 := checking) [] [] (lit "secret") (lit "0011:22")
                web_id key32 no_host [mkProfile web_id web] web
                (mkProfile web_id web_renamed)
                (cramped [mkProfile web_id web]))
    as (_ & _ & Hiv & _ & _ & _ & _ & _ & _ & Hupd & _).
  pose proof (failures_reach_the_caller_except_storage
                (ssh2 := checking) [] [] (lit "secret")
                (lit "000102030405060708090a0b0c0d0e0f:00") web_id key32
                no_host [mkProfile web_id web] web
                (mkProfile web_id web_renamed) garbled)
    as (_ & _ & Hdecipher & _ & _ & _ & _ & Hget & _ & _ & _ & _
        & Hgarbled).
  destruct (Hkey ltac:(discriminate)) as [Hkey1 Hkey2].
  destruct (Hcipher eq_refl) as (Hcipher' & _).
  destruct (Hform eq_refl) as (_ & Hform' & _).
  destruct (Hiv eq_refl) as (_ & _ & Hiv' & _).
  destruct (Hdecipher eq_refl) as (_ & _ & _ & Hdecipher').
  destruct (Hlate [ready] [error (mkError "read ECONNRESET")] eq_refl
              ltac:(repeat constructor)) as [Hresolved Hprinted].
  split; [apply Hgen; now left|].
  split; [exact Hkey1|]. split; [exact Hkey2|].
  split; [exact (Hcipher' (mkError "Unknown cipher") eq_refl)|].
  split; [apply Hform'; vm_compute; discriminate|].
  split.
  { apply (Hiv' (lit "0011") (lit "22")); [reflexivity|].
    vm_compute. discriminate. }
  split.
  { exact (Hdecipher' (lit "000102030405060708090a0b0c0d0e0f") (lit "00")
             (mkError "bad decrypt") eq_refl eq_refl eq_refl). }
  split; [exact (Hthrown (mkError "Invalid host") eq_refl)|].
  split.
  { exact (Hfirst [] (mkError "connect ECONNREFUSED") [close] eq_refl
             ltac:(constructor)). }
  split; [exact Hresolved|].
  split; [apply (Hprinted (mkError "read ECONNRESET")); now left|].
  split; [exact Hsave|]. split; [exact Hget|]. split; [exact Hadd|].
  split; [exact Hupd|]. split; [exact Hdel|].
  split.
  { apply (Hswallow QuotaExceededError). exists full. reflexivity. }
  apply (Hgarbled (lit "{") (mkError "Unexpected token"));
    reflexivity.
Defined.

End MoreExamples.
